(** * The HTTP request pipeline of the Lacework API client (api/http.go)

    A shallow embedding of [NewRequest], [Do], [DoDecoder],
    [RequestDecoder] and the debug sniffers of
    vendor/github.com/lacework/go-sdk/api/http.go, with the properties the
    specification states about them.

    Conventions of the embedding:
    - a Go [(value, error)] pair of which exactly one is non-nil is a
      [Result]; where both may be non-nil ([Do], [DoDecoder]) it is a pair
      of options;
    - a method on [*Client] is a computation in the monad [M]: it threads
      the client, the clock and a trace of the calls the code makes to
      callbacks, to the token manager, to the logger, to the transport and
      to [Close]; a nil dereference is the outcome [Panicked];
    - the clock is read from the state and does not advance during a call;
    - a callback is a function from its arguments to the error it returns;
      that it was called is an event of the trace;
    - [http.Header] is a finite map from canonical keys to value lists;
    - a Go map that is ranged over is the list of its entries in the order
      the range statement visits them;
    - the parts of the Go standard library and of the package that
      api/http.go calls but does not define are the fields of the classes
      [Net] and [Pkg]; the properties hold for every instance, and
      [Sample] is one instance on which the pipeline runs. *)

From Stdlib Require Import ZArith Ascii String List Bool Lia.
From Stdlib.Strings Require Import Byte.
From Stdlib Require Import Permutation.
From stdpp Require Import gmap strings list fin_maps.

Local Open Scope string_scope.
Local Open Scope list_scope.
Local Open Scope Z_scope.

(** ** Errors and results *)

Definition Error := string.

Inductive Result (A : Type) : Type :=
| Ok (a : A)
| Err (e : Error).
Arguments Ok {A} a.
Arguments Err {A} e.

(** ** net/textproto: canonical header keys *)

Module textproto.

Definition isLower (c : ascii) : bool :=
  let n := nat_of_ascii c in (97 <=? n)%nat && (n <=? 122)%nat.

Definition isUpper (c : ascii) : bool :=
  let n := nat_of_ascii c in (65 <=? n)%nat && (n <=? 90)%nat.

Definition isDigit (c : ascii) : bool :=
  let n := nat_of_ascii c in (48 <=? n)%nat && (n <=? 57)%nat.

(** The token characters of RFC 7230. *)
Definition validHeaderFieldByte (c : ascii) : bool :=
  isLower c || isUpper c || isDigit c
  || existsb (Ascii.eqb c) (list_ascii_of_string "!#$%&'*+-.^_`|~").

Definition toUpper (c : ascii) : ascii := ascii_of_nat (nat_of_ascii c - 32).
Definition toLower (c : ascii) : ascii := ascii_of_nat (nat_of_ascii c + 32).

(** The second loop of [canonicalMIMEHeaderKey]: the first letter and every
    letter after a hyphen in upper case, the others in lower case. *)
Fixpoint canonicalize (upper : bool) (s : string) : string :=
  match s with
  | EmptyString => EmptyString
  | String c s' =>
      let c' := if upper && isLower c then toUpper c
                else if negb upper && isUpper c then toLower c
                else c in
      String c' (canonicalize (Ascii.eqb c' "-") s')
  end.

(** A key with a byte that is no token character is returned as it is. *)
Definition CanonicalMIMEHeaderKey (s : string) : string :=
  if forallb validHeaderFieldByte (list_ascii_of_string s)
  then canonicalize true s
  else s.

End textproto.

(** ** net/http: headers *)

Abbreviation Header := (gmap string (list string)).

(** [Header.Set]: the canonical key is bound to the single value. *)
Definition Header_Set (h : Header) (k v : string) : Header :=
  <[textproto.CanonicalMIMEHeaderKey k := [v]]> h.

(** [Header.Get]: the first value of the canonical key, or the empty string. *)
Definition Header_Get (h : Header) (k : string) : string :=
  match h !! textproto.CanonicalMIMEHeaderKey k with
  | Some (v :: _) => v
  | _ => ""
  end.

(** [for k, v := range m { h.Set(k, v) }] *)
Definition setAll (h : Header) (m : list (string * string)) : Header :=
  fold_left (fun h kv => Header_Set h (fst kv) (snd kv)) m h.

(** ** io: bodies *)

(** A body is [http.NoBody] or a stream: the bytes that are still to be read,
    the error (if any) that reading reports after them, and the error (if
    any) that [Close] reports. *)
Inductive ReadCloser : Type :=
| NoBody
| Stream (data : list byte) (readErr closeErr : option Error).

(** [ioutil.ReadAll] *)
Definition ReadAll (b : ReadCloser) : list byte * option Error :=
  match b with
  | NoBody => ([], None)
  | Stream d r _ => (d, r)
  end.

(** What [Close] returns. *)
Definition closeError (b : ReadCloser) : option Error :=
  match b with
  | NoBody => None
  | Stream _ _ c => c
  end.

(** [ioutil.NopCloser(bytes.NewBuffer(bs))] *)
Definition NopCloser (bs : list byte) : ReadCloser := Stream bs None None.

Definition isNoBody (b : ReadCloser) : bool :=
  match b with NoBody => true | Stream _ _ _ => false end.

(** ** The trace *)

Inductive Level : Type := Debug | Info.

Inductive Field : Type :=
| FString (s : string)
| FInt (z : Z)
| FHeader (h : Header).

Inductive Event : Type :=
| EvLog (lvl : Level) (msg : string) (fields : list (string * Field))
| EvTokenExpiredCallback
| EvGenerateToken
| EvRoundTrip (method url : string)
| EvRequestCallback (code : Z) (h : Header)
| EvCopy
| EvDecode
| EvClose (b : ReadCloser).

Definition isGenerateToken (e : Event) : bool :=
  match e with EvGenerateToken => true | _ => false end.

Definition isTokenExpiredCallback (e : Event) : bool :=
  match e with EvTokenExpiredCallback => true | _ => false end.

Definition isRequestCallback (e : Event) : bool :=
  match e with EvRequestCallback _ _ => true | _ => false end.

Definition isDecodeAttempt (e : Event) : bool :=
  match e with EvCopy | EvDecode => true | _ => false end.

Definition isClose (e : Event) : bool :=
  match e with EvClose _ => true | _ => false end.

Definition count (p : Event -> bool) (t : list Event) : nat :=
  length (List.filter p t).


(** ** net/url and net/http, as far as the builder uses them *)

(** The standard library's URL type and the operations on it that
    [NewRequest] calls. *)
Class Net : Type := {
  URL : Type;
  url_Parse : string -> Result URL;
  ResolveReference : URL -> URL -> URL;
  URL_String : URL -> string;
  (** [u.RawQuery = u.Query().Encode()] *)
  URL_encodeQuery : URL -> URL;
  validMethod : string -> bool
}.

Inductive Outcome (A : Type) : Type :=
| Val (a : A)
| Panicked (msg : string).
Arguments Val {A} a.
Arguments Panicked {A} msg.

Section Types.

Context {N : Net}.

Record Request : Type := mkRequest {
  Method : string;
  req_URL : URL;
  req_Header : Header;
  req_Body : option ReadCloser
}.

Record Response : Type := mkResponse {
  StatusCode : Z;
  Proto : string;
  res_Header : Header;
  res_Body : option ReadCloser;
  ContentLength : Z
}.

(** What [http.Client.Do] returns: a response and no error, an error and
    no response, or (when a redirect policy fails) both. *)
Inductive TransportResult : Type :=
| TResponse (r : Response)
| TError (e : Error)
| TBoth (r : Response) (e : Error).

Definition tr_response (t : TransportResult) : option Response :=
  match t with
  | TResponse r | TBoth r _ => Some r
  | TError _ => None
  end.

Definition tr_err (t : TransportResult) : option Error :=
  match t with
  | TResponse _ => None
  | TError e | TBoth _ e => Some e
  end.

(** [http.NewRequest] *)
Definition http_NewRequest (method urlStr : string) (body : option ReadCloser)
  : Result Request :=
  let method := if String.eqb method "" then "GET" else method in
  if negb (validMethod method) then Err "net/http: invalid method"
  else match url_Parse urlStr with
       | Err e => Err e
       | Ok u => Ok {| Method := method; req_URL := u;
                       req_Header := ∅; req_Body := body |}
       end.

Definition http_StatusNoContent : Z := 204.

Definition setReqHeader (r : Request) (h : Header) : Request :=
  {| Method := Method r; req_URL := req_URL r;
     req_Header := h; req_Body := req_Body r |}.

Definition setReqURL (r : Request) (u : URL) : Request :=
  {| Method := Method r; req_URL := u;
     req_Header := req_Header r; req_Body := req_Body r |}.

Definition setReqBody (r : Request) (b : option ReadCloser) : Request :=
  {| Method := Method r; req_URL := req_URL r;
     req_Header := req_Header r; req_Body := b |}.

Definition setResBody (r : Response) (b : option ReadCloser) : Response :=
  {| StatusCode := StatusCode r; Proto := Proto r;
     res_Header := res_Header r; res_Body := b;
     ContentLength := ContentLength r |}.

(** *** The client and its state *)

Record authConfig : Type := mkAuth {
  secret : string;
  token : string;
  (** the expiry instant, in seconds *)
  expiresAt : Z
}.

Record LifecycleCallbacks : Type := mkCallbacks {
  TokenExpiredCallback : option (unit -> option Error);
  RequestCallback : option (Z -> Header -> option Error)
}.

Record Client : Type := mkClient {
  baseURL : URL;
  auth : authConfig;
  (** the global headers, in the order the range statement visits them *)
  headers : list (string * string);
  callbacks : LifecycleCallbacks;
  (** the transport, [c.c.Do] *)
  c_Do : Request -> TransportResult;
  debug : bool
}.

Record State : Type := mkState {
  client : Client;
  (** the reading of [time.Now()], in seconds *)
  now : Z;
  trace : list Event
}.

(** *** The monad *)

Definition M (A : Type) : Type := State -> Outcome A * State.

Definition ret {A} (a : A) : M A := fun s => (Val a, s).

Definition bind {A B} (m : M A) (k : A -> M B) : M B :=
  fun s => match m s with
           | (Val a, s') => k a s'
           | (Panicked msg, s') => (Panicked msg, s')
           end.

Definition panic {A} (msg : string) : M A := fun s => (Panicked msg, s).

Definition getClient : M Client := fun s => (Val (client s), s).

Definition getNow : M Z := fun s => (Val (now s), s).

Definition putClient (c : Client) : M unit :=
  fun s => (Val tt, {| client := c; now := now s; trace := trace s |}).

Definition emit (e : Event) : M unit :=
  fun s => (Val tt, {| client := client s; now := now s;
                       trace := trace s ++ [e] |}).

(** The events a computation adds to the trace. *)
Definition added (s s' : State) : list Event :=
  drop (length (trace s)) (trace s').

End Types.

Notation "x <- m ;; k" := (bind m (fun x => k))
  (at level 100, m at next level, right associativity).
Notation "m ;;; k" := (bind m (fun _ => k))
  (at level 100, right associativity).

(** ** Parts of the package that live in other files *)

Class Pkg {N : Net} : Type := {
  (** the path of the token-issuance endpoint *)
  apiTokens : string;
  apiPath : Client -> string -> string;
  (** The token manager: the client after the call, and the error. *)
  GenerateToken : Client -> Client * option Error;
  (** The API-level error check; it may read the body of the response. *)
  checkErrorInResponse : Response -> Response * option Error;
  (** A destination is an [io.Writer] or a value that [encoding/json] fills. *)
  W : Type;
  J : Type;
  (** [io.Copy(w, r)]: the writer and the reader afterwards, and the error. *)
  io_Copy : W -> ReadCloser -> W * ReadCloser * option Error;
  (** [json.NewDecoder(r).Decode(v)] *)
  json_Decode : ReadCloser -> J -> ReadCloser * J * option Error;
  (** [jsonReader]: the payload as a JSON reader. *)
  Data : Type;
  jsonReader : Data -> Result (option ReadCloser)
}.

Section Pipeline.

Context {N : Net} {P : Pkg}.

Inductive Dest : Type :=
| DWriter (w : W)
| DValue (j : J).

(** Modelled from the spec: [debugMode] is absent from the sources; the
    spec has "a boolean external setting controlling whether
    headers/bodies are logged in full or redacted". *)
Definition debugMode (c : Client) : bool := debug c.

(** Modelled from the spec: [TokenExpired] is absent from the sources; the
    spec has "whether the currently held token is expired (based on a
    stored expiry instant compared to current time)". *)
Definition TokenExpired (c : Client) (t : Z) : bool := expiresAt (auth c) <=? t.

(** *** Sniffers *)

(** [sniffBody] *)
Definition sniffBody (body : ReadCloser) : M (option ReadCloser * string) :=
  let (bodyBytes, err) := ReadAll body in
  match err with
  | Some _ => ret (None, "")
  | None =>
      emit (EvClose body) ;;;
      match closeError body with
      | Some _ => ret (None, "")
      | None => ret (Some (NopCloser bodyBytes), string_of_list_byte bodyBytes)
      end
  end.

(** [httpHeadersSniffer] *)
Definition httpHeadersSniffer (hs : Header) : M Field :=
  c <- getClient ;;
  if negb (debugMode c) then ret (FString "suppressed")
  else ret (FHeader hs).

(** [httpRequestBodySniffer]: the request afterwards, and the string. *)
Definition httpRequestBodySniffer (r : Request) : M (Request * string) :=
  c <- getClient ;;
  if negb (debugMode c) then ret (r, "suppressed")
  else match req_Body r with
       | None => ret (r, "")
       | Some b =>
           if isNoBody b then ret (r, "")
           else p <- sniffBody b ;;
                ret (setReqBody r (fst p), snd p)
       end.

(** [httpResponseBodySniffer]: the response afterwards, and the string. *)
Definition httpResponseBodySniffer (r : Response) : M (Response * string) :=
  c <- getClient ;;
  if negb (debugMode c) then ret (r, "suppressed")
  else match res_Body r with
       | None => ret (r, "")
       | Some b =>
           if ContentLength r =? 0 then ret (r, "")
           else p <- sniffBody b ;;
                ret (setResBody r (fst p), snd p)
       end.

(** *** The request builder *)

(** The two header entries that [NewRequest] sets for every request. *)
Definition baseHeaders (request : Request) : list (string * string) :=
  [("Method", Method request); ("Accept", "application/json")].

(** Lines 59-63 of [NewRequest]: the token-expired callback. *)
Definition runTokenExpiredCallback : M unit :=
  c <- getClient ;;
  t <- getNow ;;
  match TokenExpiredCallback (callbacks c) with
  | Some callback =>
      if TokenExpired c t
      then emit EvTokenExpiredCallback ;;;
           match callback tt with
           | Some e =>
               emit (EvLog Info "token expired callback failure" [("error", FString e)])
           | None => ret tt
           end
      else ret tt
  | None => ret tt
  end.

(** Line 64 of [NewRequest]: the call of [c.GenerateToken()]. *)
Definition callGenerateToken : M (option Error) :=
  emit EvGenerateToken ;;;
  c <- getClient ;;
  let (c', err) := GenerateToken c in
  putClient c' ;;;
  ret err.

(** Lines 57-67 of [NewRequest]: a client without a token, or with an
    expired one, gets a new one. *)
Definition ensureToken : M (option Error) :=
  c <- getClient ;;
  t <- getNow ;;
  if String.eqb (token (auth c)) "" || TokenExpired c t
  then runTokenExpiredCallback ;;; callGenerateToken
  else ret None.

(** Lines 52-69 of [NewRequest]: the entry that authenticates the request. *)
Definition authHeader (apiURL : string) : M (Result (string * string)) :=
  c <- getClient ;;
  if String.eqb apiURL apiTokens
  then ret (Ok ("X-LW-UAKS", secret (auth c)))
  else
    err <- ensureToken ;;
    match err with
    | Some e => ret (Err e)
    | None =>
        c' <- getClient ;;
        ret (Ok ("Authorization", token (auth c')))
    end.

(** Lines 71-75 of [NewRequest]. *)
Definition contentType (body : option ReadCloser) : list (string * string) :=
  match body with
  | Some _ => [("Content-Type", "application/json")]
  | None => []
  end.

(** [NewRequest]. The map [headers] of the source is the list of its
    entries; its keys are distinct and stay distinct in canonical form, so
    the order in which the range statement visits them does not show in
    the result (lemma [setAll_Permutation]). *)
Definition NewRequest (method apiURL : string) (body : option ReadCloser)
  : M (Result Request) :=
  c <- getClient ;;
  match url_Parse (apiPath c apiURL) with
  | Err e => ret (Err e)
  | Ok apiPathURL =>
    let u := ResolveReference (baseURL c) apiPathURL in
    match http_NewRequest method (URL_String u) body with
    | Err e => ret (Err e)
    | Ok request =>
      a <- authHeader apiURL ;;
      match a with
      | Err e => ret (Err e)
      | Ok kv =>
        let computed := baseHeaders request ++ [kv] ++ contentType body in
        let request := setReqHeader request (setAll (req_Header request) computed) in
        c' <- getClient ;;
        let request := setReqHeader request (setAll (req_Header request) (headers c')) in
        let request := setReqURL request (URL_encodeQuery (req_URL request)) in
        fh <- httpHeadersSniffer (req_Header request) ;;
        p <- httpRequestBodySniffer request ;;
        emit (EvLog Debug "request"
                [("method", FString (Method request));
                 ("url", FString (URL_String (baseURL c')));
                 ("endpoint", FString (URL_String apiPathURL));
                 ("headers", fh);
                 ("body", FString (snd p))]) ;;;
        ret (Ok (fst p))
      end
    end
  end.

(** *** The transport executor *)

(** [Do] *)
Definition Do (req : Request) : M (option Response * option Error) :=
  c <- getClient ;;
  emit (EvRoundTrip (Method req) (URL_String (req_URL req))) ;;;
  let t := c_Do c req in
  response <- (match t with
               | TResponse r =>
                   fh <- httpHeadersSniffer (res_Header r) ;;
                   p <- httpResponseBodySniffer r ;;
                   emit (EvLog Info "response"
                           [("from_req_url", FString (URL_String (req_URL req)));
                            ("code", FInt (StatusCode r));
                            ("proto", FString (Proto r));
                            ("headers", fh);
                            ("body", FString (snd p))]) ;;;
                   ret (Some (fst p))
               | TError _ => ret None
               | TBoth r _ => ret (Some r)
               end) ;;
  (match RequestCallback (callbacks c), response with
   | Some call, Some r =>
       emit (EvRequestCallback (StatusCode r) (res_Header r)) ;;;
       match call (StatusCode r) (res_Header r) with
       | Some e => emit (EvLog Info "request callback failure" [("error", FString e)])
       | None => ret tt
       end
   | _, _ => ret tt
   end) ;;;
  ret (response, tr_err t).

(** *** The decode pipeline *)

(** [DoDecoder]: the response, the error, and the destination afterwards.
    Reading from a nil body panics. *)
Definition DoDecoder (req : Request) (v : option Dest)
  : M (option Response * option Error * option Dest) :=
  p <- Do req ;;
  match p with
  | (_, Some err) => ret (None, Some err, v)
  | (None, None) => panic "nil pointer dereference"
  | (Some res, None) =>
    if StatusCode res =? http_StatusNoContent then ret (Some res, None, v)
    else
      let (res, err) := checkErrorInResponse res in
      match err with
      | Some e => ret (Some res, Some e, v)
      | None =>
        match v with
        | None => ret (Some res, None, v)
        | Some (DWriter w) =>
            emit EvCopy ;;;
            match res_Body res with
            | None => panic "nil pointer dereference"
            | Some b =>
                let '(w', b', err) := io_Copy w b in
                ret (Some (setResBody res (Some b')), err, Some (DWriter w'))
            end
        | Some (DValue j) =>
            emit EvDecode ;;;
            match res_Body res with
            | None => panic "nil pointer dereference"
            | Some b =>
                let '(b', j', err) := json_Decode b j in
                ret (Some (setResBody res (Some b')), err, Some (DValue j'))
            end
        end
      end
  end.

(** [RequestDecoder]: the error, and the destination afterwards. The
    deferred [Close] runs when the function returns. *)
Definition RequestDecoder (method path : string) (body : option ReadCloser)
           (v : option Dest) : M (option Error * option Dest) :=
  r <- NewRequest method path body ;;
  match r with
  | Err e => ret (Some e, v)
  | Ok request =>
    q <- DoDecoder request v ;;
    let '(res, err, v') := q in
    match err with
    | Some e => ret (Some e, v')
    | None =>
      match res with
      | None => panic "nil pointer dereference"
      | Some res =>
        match res_Body res with
        | None => panic "nil pointer dereference"
        | Some b => emit (EvClose b) ;;; ret (None, v')
        end
      end
    end
  end.

(** [RequestEncoderDecoder] *)
Definition RequestEncoderDecoder (method path : string) (data : Data)
           (v : option Dest) : M (option Error * option Dest) :=
  match jsonReader data with
  | Err e => ret (Some e, v)
  | Ok body => RequestDecoder method path body v
  end.

End Pipeline.

(** ** Vocabulary of the properties *)

Section Vocabulary.

Context {N : Net} {P : Pkg}.

(** The value list that the global headers [g] bind the key [k] to, if
    any: that of the last entry whose canonical key is that of [k]. *)
Definition globalValue (g : list (string * string)) (k : string)
  : option (list string) :=
  setAll ∅ g !! textproto.CanonicalMIMEHeaderKey k.

(** What a request carries under the key [k] when the builder computed
    the value [v] for it and the client has the global headers [g]. *)
Definition effective (g : list (string * string)) (k v : string)
  : option (list string) :=
  match globalValue g k with
  | Some vs => Some vs
  | None => Some [v]
  end.

(** No entry of [g] has the canonical key of [k]. *)
Definition unset (g : list (string * string)) (k : string) : Prop :=
  Forall (fun kv => textproto.CanonicalMIMEHeaderKey (fst kv)
                    <> textproto.CanonicalMIMEHeaderKey k) g.

(** The client needs a token: it holds none, or an expired one. *)
Definition needsToken (st : State) : bool :=
  String.eqb (token (auth (client st))) "" || TokenExpired (client st) (now st).

(** A token-expired callback is registered. *)
Definition hasTokenExpiredCallback (c : Client) : bool :=
  match TokenExpiredCallback (callbacks c) with Some _ => true | None => false end.

(** The events of lines 59-63 of [NewRequest]. *)
Definition tokenExpiredEvents (c : Client) (t : Z) : list Event :=
  match TokenExpiredCallback (callbacks c) with
  | Some callback =>
      if TokenExpired c t
      then EvTokenExpiredCallback ::
           match callback tt with
           | Some e => [EvLog Info "token expired callback failure" [("error", FString e)]]
           | None => []
           end
      else []
  | None => []
  end.

(** The events of lines 179-183 of [Do], for the response that [Do] holds. *)
Definition requestCallbackEvents (c : Client) (response : option Response)
  : list Event :=
  match RequestCallback (callbacks c), response with
  | Some call, Some r =>
      EvRequestCallback (StatusCode r) (res_Header r) ::
      match call (StatusCode r) (res_Header r) with
      | Some e => [EvLog Info "request callback failure" [("error", FString e)]]
      | None => []
      end
  | _, _ => []
  end.

(** The response [r'] is [r] up to its body. *)
Definition sameButBody (r r' : Response) : Prop :=
  StatusCode r' = StatusCode r /\ Proto r' = Proto r /\
  res_Header r' = res_Header r /\ ContentLength r' = ContentLength r.

(** Events of the logger and of [Close]. *)
Definition quiet (e : Event) : bool :=
  match e with
  | EvLog _ _ _ | EvClose _ => true
  | _ => false
  end.

(** The state [st] with another request callback. *)
Definition withRequestCallback (st : State)
           (cb : option (Z -> Header -> option Error)) : State :=
  let c := client st in
  {| client := {| baseURL := baseURL c; auth := auth c; headers := headers c;
                  callbacks := {| TokenExpiredCallback :=
                                    TokenExpiredCallback (callbacks c);
                                  RequestCallback := cb |};
                  c_Do := c_Do c; debug := debug c |};
     now := now st; trace := trace st |}.

(** The header [h] carries, under the key [k], the computed value [v] when
    the global headers [g] do not set [k], and otherwise the value of the
    last global entry that sets [k]. *)
Definition carries (h : Header) (g : list (string * string)) (k v : string) : Prop :=
  (unset g k -> h !! textproto.CanonicalMIMEHeaderKey k = Some [v]) /\
  (forall g0 k' v' g1,
      g = g0 ++ (k', v') :: g1 ->
      textproto.CanonicalMIMEHeaderKey k' = textproto.CanonicalMIMEHeaderKey k ->
      unset g1 k ->
      h !! textproto.CanonicalMIMEHeaderKey k = Some [v']).

(** The specification's sentence on regeneration, on one call: a request
    for another endpoint than the token-issuance one, built by a client
    that needs a token, comes with exactly one call of [GenerateToken] and,
    if a token-expired callback is registered, with exactly one call of
    it. *)
Definition regenerates_and_notifies_once
           (method apiURL : string) (body : option ReadCloser) (st : State) : Prop :=
  String.eqb apiURL apiTokens = false ->
  needsToken st = true ->
  forall req st',
    NewRequest method apiURL body st = (Val (Ok req), st') ->
    count isGenerateToken (added st st') = 1%nat /\
    (hasTokenExpiredCallback (client st) = true ->
     count isTokenExpiredCallback (added st st') = 1%nat).

(** The specification's sentence on global headers, on one call: the
    request carries the computed values of Method, Accept, Authorization
    and Content-Type, whatever the global headers hold. *)
Definition computed_headers_prevail
           (method apiURL : string) (body : option ReadCloser) (st : State) : Prop :=
  forall req st',
    NewRequest method apiURL body st = (Val (Ok req), st') ->
    req_Header req !! "Method" = Some [Method req] /\
    req_Header req !! "Accept" = Some ["application/json"] /\
    (String.eqb apiURL apiTokens = false ->
     req_Header req !! "Authorization" = Some [token (auth (client st'))]) /\
    (body <> None ->
     req_Header req !! "Content-Type" = Some ["application/json"]).

(** The specification's sentence on the token-issuance endpoint, on one
    call: the request carries the secret in its dedicated header and no
    Authorization header, and no token was regenerated. *)
Definition token_request_carries_secret
           (method : string) (body : option ReadCloser) (st : State) : Prop :=
  forall req st',
    NewRequest method apiTokens body st = (Val (Ok req), st') ->
    req_Header req !! textproto.CanonicalMIMEHeaderKey "X-LW-UAKS"
    = Some [secret (auth (client st))] /\
    req_Header req !! "Authorization" = None /\
    count isGenerateToken (added st st') = 0%nat.

(** From [st] to [st'] the client and the clock are the same and the
    trace grew by [l]. *)
Definition advances (st st' : State) (l : list Event) : Prop :=
  client st' = client st /\ now st' = now st /\ trace st' = trace st ++ l.

(** Sniffing [b] fails: reading it or closing it reports an error. *)
Definition sniffFails (b : ReadCloser) : Prop :=
  snd (ReadAll b) <> None \/ closeError b <> None.

End Vocabulary.

(** ** Vocabulary of the further properties *)

Definition isRoundTrip (e : Event) : bool :=
match e with EvRoundTrip _ _ => true | _ => false end.

Definition isCopy (e : Event) : bool :=
match e with EvCopy => true | _ => false end.

Definition isJSONDecode (e : Event) : bool :=
match e with EvDecode => true | _ => false end.

Definition isSuppressed (f : Field) : bool :=
match f with
| FString s => String.eqb s "suppressed"
| _ => false
end.

(** A log entry is redacted when its fields "headers" and "body", if it has
    them, hold the placeholder. *)
Definition redacted (e : Event) : bool :=
match e with
| EvLog _ _ fields =>
    forallb (fun kv => if String.eqb (fst kv) "headers" || String.eqb (fst kv) "body"
                       then isSuppressed (snd kv) else true) fields
| _ => true
end.


Definition isOk {A : Type} (r : Result A) : bool :=
match r with Ok _ => true | Err _ => false end.

Section Observations.

Context {N : Net} {P : Pkg}.


(** The state after lines 57-67 of [NewRequest] regenerated the token. *)
Definition regenerated (st : State) : State :=
{| client := fst (GenerateToken (client st)); now := now st;
   trace := trace st ++ tokenExpiredEvents (client st) (now st) ++ [EvGenerateToken] |}.

(** The path parses and [http.NewRequest] accepts the method and the URL. *)
Definition canBuild (method apiURL : string) (body : option ReadCloser) (st : State)
  : bool :=
match url_Parse (apiPath (client st) apiURL) with
| Err _ => false
| Ok p =>
    isOk (http_NewRequest method
            (URL_String (ResolveReference (baseURL (client st)) p)) body)
end.


(** The canonical keys of the headers that [NewRequest] computes. *)
Definition computedKeys : list string :=
["Method"; "Accept"; "Authorization"; "X-Lw-Uaks"; "Content-Type"].

(** The log entry that ends a successful call of [NewRequest]. *)
Definition requestLog (req : Request) (c : Client) (endpoint : URL)
           (fh : Field) (str : string) : Event :=
EvLog Debug "request"
      [("method", FString (Method req));
       ("url", FString (URL_String (baseURL c)));
       ("endpoint", FString (URL_String endpoint));
       ("headers", fh);
       ("body", FString str)].

(** The log entry of [Do] for a response. *)
Definition responseLog (req : Request) (r : Response) (fh : Field) (str : string)
  : Event :=
EvLog Info "response"
      [("from_req_url", FString (URL_String (req_URL req)));
       ("code", FInt (StatusCode r));
       ("proto", FString (Proto r));
       ("headers", fh);
       ("body", FString str)].

(** The response passes the gate of [DoDecoder]: its status is not 204 and
    the API-level check finds no error. *)
Definition passesCheck (res : Response) : bool :=
negb (StatusCode res =? http_StatusNoContent)
&& match snd (checkErrorInResponse res) with None => true | Some _ => false end.

(** The request of [NewRequest] before the debug log: the computed headers,
    then the global headers of the client [c'], then the query string. *)
Definition assembled (request : Request) (kv : string * string)
           (body : option ReadCloser) (c' : Client) : Request :=
let request1 :=
  setReqHeader request
    (setAll (req_Header request) (baseHeaders request ++ [kv] ++ contentType body)) in
let request2 := setReqHeader request1 (setAll (req_Header request1) (headers c')) in
setReqURL request2 (URL_encodeQuery (req_URL request2)).

(** The decode attempt of [DoDecoder], for what [Do] returned and for the
    destination: a copy into a writer, a JSON decode into a value. *)
Definition attempts (p : option Response * option Error) (v : option Dest)
  : list Event :=
match p, v with
| (Some res, None), Some d =>
    if passesCheck res
    then [match d with DWriter _ => EvCopy | DValue _ => EvDecode end]
    else []
| _, _ => []
end.

End Observations.

(** ** A sample environment

    A concrete instance of the standard library's and the package's
    operations, on which the pipeline can be run. *)

Module Sample.

Definition isToken (s : string) : bool :=
  forallb textproto.validHeaderFieldByte (list_ascii_of_string s).

#[export] Instance net : Net := {|
  URL := string;
  url_Parse := fun s => if String.eqb s "" then Err "empty url" else Ok s;
  ResolveReference := fun base ref => String.append base ref;
  URL_String := fun u => u;
  URL_encodeQuery := fun u => u;
  validMethod := fun m => negb (String.eqb m "") && isToken m
|}.

Definition drain (b : ReadCloser) : ReadCloser :=
  match b with
  | NoBody => NoBody
  | Stream _ r c => Stream [] r c
  end.

#[export] Instance pkg : Pkg := {|
  apiTokens := "access/tokens";
  apiPath := fun _ p => String.append "/api/v1/" p;
  GenerateToken := fun c =>
    ({| baseURL := baseURL c;
        auth := {| secret := secret (auth c); token := "fresh-token";
                   expiresAt := 3600 |};
        headers := headers c; callbacks := callbacks c;
        c_Do := c_Do c; debug := debug c |}, None);
  checkErrorInResponse := fun r =>
    if (200 <=? StatusCode r) && (StatusCode r <=? 299) then (r, None)
    else (setResBody r (option_map drain (res_Body r)), Some "api error");
  W := list byte;
  J := list byte;
  io_Copy := fun w b => (w ++ fst (ReadAll b), drain b, snd (ReadAll b));
  json_Decode := fun b j =>
    match ReadAll b with
    | (x7b :: d, None) => (drain b, x7b :: d, None)
    | (_, Some e) => (drain b, j, Some e)
    | (_, None) => (drain b, j, Some "invalid character")
    end;
  Data := list byte;
  jsonReader := fun d => Ok (Some (NopCloser d))
|}.

Definition noCallbacks : LifecycleCallbacks :=
  {| TokenExpiredCallback := None; RequestCallback := None |}.

Definition okResponse (code : Z) (body : list byte) : Response :=
  {| StatusCode := code; Proto := "HTTP/1.1";
     res_Header := {["Content-Type" := ["application/json"]]};
     res_Body := Some (Stream body None None);
     ContentLength := Z.of_nat (length body) |}.

(** A client with the given token state, global headers, callbacks,
    transport and debug flag. *)
Definition mkSample (tok : string) (exp : Z) (hs : list (string * string))
           (cbs : LifecycleCallbacks) (tr : Request -> TransportResult)
           (dbg : bool) : Client :=
  {| baseURL := "https://account.lacework.net";
     auth := {| secret := "s3cr3t"; token := tok; expiresAt := exp |};
     headers := hs; callbacks := cbs; c_Do := tr; debug := dbg |}.

Definition start (c : Client) (t : Z) : State :=
  {| client := c; now := t; trace := [] |}.

(** Callbacks that are registered; the request callback fails. *)
Definition notify : LifecycleCallbacks :=
  {| TokenExpiredCallback := Some (fun _ => None);
     RequestCallback := Some (fun _ _ => Some "callback failed") |}.

(** A transport that answers every request with [r]. *)
Definition respond (r : Response) : Request -> TransportResult :=
  fun _ => TResponse r.

(** A transport that fails without a response. *)
Definition unreachable : Request -> TransportResult :=
  fun _ => TError "dial tcp: connection refused".

Definition json (s : string) : list byte := list_byte_of_string s.

Definition getRules : Request :=
  {| Method := "GET"; req_URL := "https://account.lacework.net/api/v1/AlertRules";
     req_Header := ∅; req_Body := None |}.

(** A body that breaks while it is read. *)
Definition broken : ReadCloser :=
  Stream (json "{") (Some "unexpected EOF") None.

(** The request that a run of [NewRequest] built. *)
Definition built (run : Outcome (Result Request) * State) : Request :=
  match fst run with
  | Val (Ok r) => r
  | _ => getRules
  end.

(** The response that a run of [Do] returned. *)
Definition answered (run : Outcome (option Response * option Error) * State)
  : Response :=
  match fst run with
  | Val (Some r, _) => r
  | _ => okResponse 0 []
  end.

(** No token, and an expiry instant that is still ahead. *)
Definition emptyToken : State :=
  start (mkSample "" 100 [] notify (respond (okResponse 200 (json "{}"))) false) 0.

(** A token whose expiry instant has passed. *)
Definition expiredToken : State :=
  start (mkSample "old-token" 100 [] notify
                  (respond (okResponse 200 (json "{}"))) false) 500.

(** A valid token, and a global header named like a computed one. *)
Definition acceptOverridden : State :=
  start (mkSample "token" 100 [("Accept", "text/plain")] noCallbacks
                  (respond (okResponse 200 (json "{}"))) false) 0.

(** A global header named like the secret header. *)
Definition secretShadowed : State :=
  start (mkSample "" 0 [("X-LW-UAKS", "shadow")] noCallbacks
                  (respond (okResponse 201 (json "{}"))) false) 0.

(** The default global headers. *)
Definition userAgentOnly : State :=
  start (mkSample "" 0 [("User-Agent", "Go Client")] notify
                  (respond (okResponse 201 (json "{}"))) false) 0.

(** A valid token and a server that answers with the given response. *)
Definition answering (r : Response) (dbg : bool) : State :=
  start (mkSample "token" 100 [] notify (respond r) dbg) 0.

(** The runs of the pipeline that the properties are tried on. *)

Definition newRules (st : State) := NewRequest "GET" "AlertRules" None st.

Definition newToken (st : State) :=
  NewRequest "POST" "access/tokens" (Some (NopCloser (json "{}"))) st.

Definition doRules (st : State) := Do getRules st.

(** The state in which [newRules] leaves [st], and the decode that
    [RequestDecoder] then runs in it. *)
Definition decodeRules (v : option Dest) (st : State) :=
  DoDecoder (built (newRules st)) v (snd (newRules st)).

(** The error that a run of [RequestDecoder] returned, and the number of
    calls of [Close] in its trace. *)
Definition errorAndCloses (run : Outcome (option Error * option Dest) * State)
  : option (option Error) * nat :=
  (match fst run with Val (e, _) => Some e | Panicked _ => None end,
   count isClose (trace (snd run))).

(** A destination that [encoding/json] fills, empty so far. *)
Definition intoValue : option Dest := Some (DValue []).

(** A request and a response whose bodies break while they are read. *)
Definition brokenRequest : Request :=
  {| Method := "POST"; req_URL := "https://account.lacework.net/api/v1/AlertRules";
     req_Header := ∅; req_Body := Some broken |}.

Definition brokenResponse : Response :=
  {| StatusCode := 200; Proto := "HTTP/1.1"; res_Header := ∅;
     res_Body := Some broken; ContentLength := 2 |}.

End Sample.

(** A second instance of the package: the token manager is refused. *)
Module Offline.

Import Sample.

Definition pkg : Pkg := {|
  apiTokens := "access/tokens";
  apiPath := fun _ p => String.append "/api/v1/" p;
  GenerateToken := fun c => (c, Some "401 Unauthorized");
  checkErrorInResponse := fun r => (r, None);
  W := list byte;
  J := list byte;
  io_Copy := fun w b => (w ++ fst (ReadAll b), drain b, snd (ReadAll b));
  json_Decode := fun b j => (drain b, fst (ReadAll b), snd (ReadAll b));
  Data := list byte;
  jsonReader := fun d => Ok (Some (NopCloser d))
|}.

End Offline.

(** Further inputs on the sample environment. *)
Module Inputs.

Import Sample.

(** A valid token, no callbacks, and the default global headers. *)
Definition signedIn (dbg : bool) : State :=
start (mkSample "token" 100 [("User-Agent", "Go Client")] noCallbacks
                (respond (okResponse 200 (json "{}"))) dbg) 0.



(** A server that answers with [brokenResponse]. *)
Definition breaking : State := answering brokenResponse true.

(** The destination after the body of [okResponse] was decoded into it. *)
Definition rulesValue : option Dest := Some (DValue (json "{}" : J)).

(** A destination that is an [io.Writer], empty so far. *)
Definition intoWriter : option Dest := Some (DWriter (json "" : W)).

End Inputs.

(** ** Properties *)

(** *** Headers *)

Lemma setAll_app (h : Header) (a b : list (string * string)) :
  setAll h (a ++ b) = setAll (setAll h a) b.
Proof. unfold setAll. apply fold_left_app. Qed.

Lemma setAll_cons (h : Header) (kv : string * string) (m : list (string * string)) :
  setAll h (kv :: m) = setAll (Header_Set h (fst kv) (snd kv)) m.
Proof. reflexivity. Qed.

(** The entries of [m] take precedence over what [h] held. *)
Lemma setAll_lookup (m : list (string * string)) (h : Header) (i : string) :
  setAll h m !! i = match setAll ∅ m !! i with
                    | Some vs => Some vs
                    | None => h !! i
                    end.
Proof.
  revert h. induction m as [|kv m IH]; intros h.
  - cbn. by rewrite lookup_empty.
  - rewrite !setAll_cons, (IH (Header_Set h _ _)), (IH (Header_Set ∅ _ _)).
    destruct (setAll ∅ m !! i) as [vs|]; [done|].
    unfold Header_Set.
    destruct (decide (textproto.CanonicalMIMEHeaderKey (fst kv) = i)) as [->|Hne].
    + by rewrite !lookup_insert_eq.
    + by rewrite !lookup_insert_ne, lookup_empty.
Qed.

Lemma setAll_lookup_unset (m : list (string * string)) (h : Header) (i : string) :
  Forall (fun kv => textproto.CanonicalMIMEHeaderKey (fst kv) <> i) m ->
  setAll h m !! i = h !! i.
Proof.
  revert h. induction m as [|kv m IH]; intros h Hm; [done|].
  inversion Hm as [|? ? Hkv Hrest]; subst.
  rewrite setAll_cons, IH by done.
  unfold Header_Set. by rewrite lookup_insert_ne.
Qed.

Lemma setAll_lookup_last (m : list (string * string)) (h : Header) (k v : string) :
  setAll h (m ++ [(k, v)]) !! textproto.CanonicalMIMEHeaderKey k = Some [v].
Proof.
  rewrite setAll_app. cbn. unfold Header_Set. by rewrite lookup_insert_eq.
Qed.

(** With distinct canonical keys, an entry of [m] is what the header holds. *)
Lemma setAll_lookup_NoDup (m : list (string * string)) (h : Header) (k v : string) :
  NoDup (map (fun kv => textproto.CanonicalMIMEHeaderKey (fst kv)) m) ->
  (k, v) ∈ m ->
  setAll h m !! textproto.CanonicalMIMEHeaderKey k = Some [v].
Proof.
  revert h. induction m as [|kv m IH]; intros h Hnd Hin.
  - by apply elem_of_nil in Hin.
  - cbn [map] in Hnd. apply NoDup_cons in Hnd as [Hfresh Hnd].
    rewrite setAll_cons.
    apply elem_of_cons in Hin as [<-|Hin]; [|by apply IH].
    cbn [fst snd]. rewrite setAll_lookup_unset.
    + unfold Header_Set. by rewrite lookup_insert_eq.
    + apply Forall_forall. intros kv' Hkv' Heq. apply Hfresh.
      cbn [fst]. rewrite <- Heq.
      by apply (list_elem_of_fmap_2 (fun kv => textproto.CanonicalMIMEHeaderKey (fst kv))).
Qed.

(** The order in which a map with distinct canonical keys is ranged over does
    not show in the header. *)
Lemma setAll_Permutation (m m' : list (string * string)) (h : Header) :
  NoDup (map (fun kv => textproto.CanonicalMIMEHeaderKey (fst kv)) m) ->
  Permutation m m' ->
  setAll h m = setAll h m'.
Proof.
  intros Hnd Hperm. apply map_eq. intros i.
  assert (Hnd' : NoDup (map (fun kv => textproto.CanonicalMIMEHeaderKey (fst kv)) m')).
  { by rewrite <- Hperm. }
  destruct (decide (Exists (fun kv => textproto.CanonicalMIMEHeaderKey (fst kv) = i) m))
    as [Hex|Hno].
  - apply Exists_exists in Hex as ([k v] & Hin & <-). cbn [fst].
    rewrite (setAll_lookup_NoDup m h k v Hnd Hin).
    symmetry. apply setAll_lookup_NoDup; [done|].
    by rewrite <- Hperm.
  - assert (Hall : Forall (fun kv => textproto.CanonicalMIMEHeaderKey (fst kv) <> i) m).
    { apply Forall_forall. intros kv Hin Heq. apply Hno, Exists_exists.
      by exists kv. }
    rewrite setAll_lookup_unset by done.
    symmetry. apply setAll_lookup_unset.
    by rewrite <- Hperm.
Qed.

(** *** Traces *)

Lemma count_app (p : Event -> bool) (l1 l2 : list Event) :
  count p (l1 ++ l2) = (count p l1 + count p l2)%nat.
Proof. unfold count. by rewrite List.filter_app, length_app. Qed.

Lemma count_quiet (p : Event -> bool) (l : list Event) :
  (forall e, quiet e = true -> p e = false) ->
  Forall (fun e => quiet e = true) l ->
  count p l = 0%nat.
Proof.
  intros Hp Hl. unfold count. induction Hl as [|e l He Hl IH]; [done|].
  cbn. by rewrite (Hp e He).
Qed.

Lemma count_none (p : Event -> bool) (l : list Event) :
  Forall (fun e => p e = false) l -> count p l = 0%nat.
Proof.
  intros Hl. unfold count. induction Hl as [|e l He Hl IH]; [done|].
  cbn. by rewrite He.
Qed.

(** Membership in a list that is written out. *)
Ltac list_mem := rewrite ?elem_of_app, ?elem_of_cons; auto 10.

Section Properties.

Context {N : Net} {P : Pkg}.

Lemma added_app (st st' : State) (l : list Event) :
  trace st' = trace st ++ l -> added st st' = l.
Proof. unfold added. intros ->. by rewrite drop_app_length. Qed.

Lemma advances_added (st st' : State) (l : list Event) :
  advances st st' l -> added st st' = l.
Proof. intros (_ & _ & Ht). by apply added_app. Qed.

Lemma advances_refl (st : State) : advances st st [].
Proof. unfold advances. by rewrite app_nil_r. Qed.

Lemma advances_trans (st1 st2 st3 : State) (l1 l2 : list Event) :
  advances st1 st2 l1 -> advances st2 st3 l2 -> advances st1 st3 (l1 ++ l2).
Proof.
  intros (Hc1 & Hn1 & Ht1) (Hc2 & Hn2 & Ht2). unfold advances.
  rewrite Hc2, Hc1, Hn2, Hn1, Ht2, Ht1. by rewrite app_assoc.
Qed.

(** *** Sniffers *)

Lemma sniffBody_eq (body : ReadCloser) (st : State) :
  sniffBody body st =
  match snd (ReadAll body) with
  | Some _ => (Val (None, ""), st)
  | None =>
      (Val (match closeError body with
            | Some _ => (None, "")
            | None => (Some (NopCloser (fst (ReadAll body))),
                       string_of_list_byte (fst (ReadAll body)))
            end),
       {| client := client st; now := now st;
          trace := trace st ++ [EvClose body] |})
  end.
Proof.
  unfold sniffBody. destruct (ReadAll body) as [d [e|]]; cbn; [done|].
  unfold bind, emit, ret. by destruct (closeError body).
Qed.

Lemma sniffBody_advances (body : ReadCloser) (st : State) o st' :
  sniffBody body st = (o, st') ->
  exists r l, o = Val r /\ advances st st' l /\ Forall (fun e => quiet e = true) l.
Proof.
  rewrite sniffBody_eq. destruct (snd (ReadAll body)); intros [= <- <-].
  - eexists _, []. split; [done|]. split; [apply advances_refl|constructor].
  - eexists _, [EvClose body]. split; [done|]. split; [done|].
    by repeat constructor.
Qed.

Lemma httpHeadersSniffer_eq (hs : Header) (st : State) :
  httpHeadersSniffer hs st =
  (Val (if negb (debugMode (client st)) then FString "suppressed" else FHeader hs), st).
Proof.
  unfold httpHeadersSniffer, bind, getClient, ret.
  by destruct (negb (debugMode (client st))).
Qed.

Lemma httpRequestBodySniffer_advances (r : Request) (st : State) o st' :
  httpRequestBodySniffer r st = (o, st') ->
  exists r' str l,
    o = Val (r', str) /\ advances st st' l /\ Forall (fun e => quiet e = true) l /\
    Method r' = Method r /\ req_URL r' = req_URL r /\ req_Header r' = req_Header r.
Proof.
  unfold httpRequestBodySniffer, bind, getClient, ret.
  destruct (negb (debugMode (client st))).
  { intros [= <- <-]. eexists _, _, []. split; [done|]. split; [apply advances_refl|]. by split; [constructor|]. }
  destruct (req_Body r) as [b|].
  2:{ intros [= <- <-]. eexists _, _, []. split; [done|]. split; [apply advances_refl|]. by split; [constructor|]. }
  destruct (isNoBody b).
  { intros [= <- <-]. eexists _, _, []. split; [done|]. split; [apply advances_refl|]. by split; [constructor|]. }
  destruct (sniffBody b st) as [o1 st1] eqn:Hs.
  apply sniffBody_advances in Hs as (p & l & -> & Hadv & Hq).
  intros [= <- <-]. by eexists _, _, l.
Qed.

(** *** The request builder *)

Lemma runTokenExpiredCallback_eq (st : State) :
  runTokenExpiredCallback st =
  (Val tt, {| client := client st; now := now st;
              trace := trace st ++ tokenExpiredEvents (client st) (now st) |}).
Proof.
  unfold runTokenExpiredCallback, tokenExpiredEvents, bind, getClient, getNow, emit, ret.
  destruct st as [c t tr]. cbn.
  destruct (TokenExpiredCallback (callbacks c)) as [cb|]; [|by rewrite app_nil_r].
  destruct (TokenExpired c t); [|by rewrite app_nil_r].
  destruct (cb tt); cbn; [|done].
  by rewrite <- app_assoc.
Qed.

Lemma callGenerateToken_eq (st : State) :
  callGenerateToken st =
  (Val (snd (GenerateToken (client st))),
   {| client := fst (GenerateToken (client st)); now := now st;
      trace := trace st ++ [EvGenerateToken] |}).
Proof.
  unfold callGenerateToken, bind, getClient, emit, putClient, ret. cbn.
  by destruct (GenerateToken (client st)).
Qed.

Lemma ensureToken_eq (st : State) :
  ensureToken st =
  if needsToken st
  then (Val (snd (GenerateToken (client st))),
        {| client := fst (GenerateToken (client st)); now := now st;
           trace := trace st ++ tokenExpiredEvents (client st) (now st)
                             ++ [EvGenerateToken] |})
  else (Val None, st).
Proof.
  unfold ensureToken, needsToken, bind, getClient, getNow, ret.
  destruct (_ || _); [|done].
  rewrite runTokenExpiredCallback_eq, callGenerateToken_eq. cbn.
  by rewrite <- app_assoc.
Qed.

(** The entry for the token-issuance endpoint: no call, no event. *)
Lemma authHeader_tokens (apiURL : string) (st : State) :
  String.eqb apiURL apiTokens = true ->
  authHeader apiURL st = (Val (Ok ("X-LW-UAKS", secret (auth (client st)))), st).
Proof.
  intros H. unfold authHeader, bind, getClient, ret. by rewrite H.
Qed.

(** The entry for another endpoint, when the builder gets one. *)
Lemma authHeader_other (apiURL : string) (st : State) kv st' :
  String.eqb apiURL apiTokens = false ->
  authHeader apiURL st = (Val (Ok kv), st') ->
  kv = ("Authorization", token (auth (client st'))) /\
  ensureToken st = (Val None, st').
Proof.
  intros H. unfold authHeader, bind, getClient, ret. rewrite H.
  destruct (ensureToken st) as [[[e|]|msg] st1]; [done| |done].
  by intros [= <- <-].
Qed.

Lemma http_NewRequest_Ok (method urlStr : string) (body : option ReadCloser) request :
  http_NewRequest method urlStr body = Ok request ->
  req_Header request = ∅ /\ req_Body request = body /\
  Method request = (if String.eqb method "" then "GET" else method).
Proof.
  unfold http_NewRequest. destruct (negb _); [done|].
  destruct (url_Parse urlStr); [|done]. by intros [= <-].
Qed.

(** What a successful call of [NewRequest] went through. *)
Lemma NewRequest_Ok (method apiURL : string) (body : option ReadCloser)
      (st : State) req st' :
  NewRequest method apiURL body st = (Val (Ok req), st') ->
  exists apiPathURL request kv st1 tail,
    url_Parse (apiPath (client st) apiURL) = Ok apiPathURL /\
    http_NewRequest method
      (URL_String (ResolveReference (baseURL (client st)) apiPathURL)) body
      = Ok request /\
    authHeader apiURL st = (Val (Ok kv), st1) /\
    advances st1 st' tail /\ Forall (fun e => quiet e = true) tail /\
    Method req = Method request /\
    req_Header req
    = setAll (setAll ∅ (baseHeaders request ++ [kv] ++ contentType body))
             (headers (client st1)).
Proof.
  unfold NewRequest. unfold bind at 1. unfold getClient at 1.
  destruct (url_Parse _) as [apiPathURL|e] eqn:Hparse; [|done].
  destruct (http_NewRequest _ _ _) as [request|e] eqn:Hreq; [|done].
  unfold bind at 1.
  destruct (authHeader apiURL st) as [[[kv|e]|msg] st1] eqn:Hauth; [|done..].
  unfold bind at 1. unfold getClient at 1.
  unfold bind at 1. rewrite httpHeadersSniffer_eq.
  unfold bind at 1.
  destruct (httpRequestBodySniffer _ st1) as [o2 st2] eqn:Hsniff.
  apply httpRequestBodySniffer_advances in Hsniff
    as (r' & str & l & -> & Hadv & Hq & Hm & Hu & Hh).
  unfold bind, emit, ret. intros [= <- <-].
  exists apiPathURL, request, kv, st1. eexists (l ++ [_]).
  split; [done|]. split; [done|]. split; [done|].
  split; [|split; [|split]].
  - eapply advances_trans; [exact Hadv|]. by unfold advances.
  - apply Forall_app. split; [done|]. by repeat constructor.
  - by rewrite Hm.
  - rewrite Hh. cbn. by destruct (http_NewRequest_Ok _ _ _ _ Hreq) as (-> & _).
Qed.

Lemma globalValue_unset (g : list (string * string)) (k : string) :
  unset g k -> globalValue g k = None.
Proof.
  intros H. unfold globalValue. rewrite setAll_lookup_unset by exact H.
  apply lookup_empty.
Qed.

Lemma effective_carries (h : Header) (g : list (string * string)) (k v : string) :
  h !! textproto.CanonicalMIMEHeaderKey k = effective g k v -> carries h g k v.
Proof.
  intros H. unfold carries. rewrite H. unfold effective. split.
  - intros Hu. by rewrite globalValue_unset.
  - intros g0 k' v' g1 -> Hk Hu. unfold globalValue.
    rewrite setAll_app, setAll_cons, setAll_lookup_unset by exact Hu.
    cbn [fst snd]. unfold Header_Set. by rewrite Hk, lookup_insert_eq.
Qed.

(** The header of a request, in terms of its computed entries. *)
Lemma built_lookup (computed g : list (string * string)) (k v : string) :
  NoDup (map (fun kv => textproto.CanonicalMIMEHeaderKey (fst kv)) computed) ->
  (k, v) ∈ computed ->
  setAll (setAll ∅ computed) g !! textproto.CanonicalMIMEHeaderKey k = effective g k v.
Proof.
  intros Hnd Hin. rewrite setAll_lookup. unfold effective, globalValue.
  destruct (setAll ∅ g !! _); [done|].
  by apply setAll_lookup_NoDup.
Qed.

Lemma computed_NoDup (request : Request) (kv : string * string)
      (body : option ReadCloser) :
  textproto.CanonicalMIMEHeaderKey (fst kv) = "Authorization"
  \/ textproto.CanonicalMIMEHeaderKey (fst kv) = "X-Lw-Uaks" ->
  NoDup (map (fun kv => textproto.CanonicalMIMEHeaderKey (fst kv))
             (baseHeaders request ++ [kv] ++ contentType body)).
Proof.
  intros Hkv. unfold baseHeaders. cbn [map app fst].
  change (textproto.CanonicalMIMEHeaderKey "Method") with "Method".
  change (textproto.CanonicalMIMEHeaderKey "Accept") with "Accept".
  destruct body as [b|]; cbn [contentType map app fst];
    [change (textproto.CanonicalMIMEHeaderKey "Content-Type") with "Content-Type"|];
    destruct Hkv as [-> | ->];
    apply (bool_decide_unpack _); vm_compute; exact I.
Qed.

Lemma count_tokenExpiredEvents (c : Client) (t : Z) :
  count isGenerateToken (tokenExpiredEvents c t) = 0%nat /\
  count isTokenExpiredCallback (tokenExpiredEvents c t)
  = (if hasTokenExpiredCallback c && TokenExpired c t then 1 else 0)%nat.
Proof.
  unfold tokenExpiredEvents, hasTokenExpiredCallback.
  destruct (TokenExpiredCallback (callbacks c)) as [cb|]; [|done].
  destruct (TokenExpired c t); [|done].
  by destruct (cb tt).
Qed.

Lemma quiet_not_GenerateToken (e : Event) : quiet e = true -> isGenerateToken e = false.
Proof. by destruct e. Qed.

Lemma quiet_not_TokenExpiredCallback (e : Event) :
  quiet e = true -> isTokenExpiredCallback e = false.
Proof. by destruct e. Qed.

(** C1 (amended): a request for another endpoint than the token-issuance
    one, built by a client whose token is empty or expired, comes with
    exactly one call of [GenerateToken]; the token-expired callback is
    called once, before that call, when it is registered and the token is
    expired, and is not called when the token is only empty; nothing is
    regenerated or notified after the call of [GenerateToken]. *)
Theorem NewRequest_regenerates_once
        (method apiURL : string) (body : option ReadCloser) (st : State) req st' :
  String.eqb apiURL apiTokens = false ->
  needsToken st = true ->
  NewRequest method apiURL body st = (Val (Ok req), st') ->
  count isGenerateToken (added st st') = 1%nat /\
  count isTokenExpiredCallback (added st st')
  = (if hasTokenExpiredCallback (client st) && TokenExpired (client st) (now st)
     then 1 else 0)%nat /\
  exists tail,
    added st st'
    = tokenExpiredEvents (client st) (now st) ++ EvGenerateToken :: tail /\
    count isGenerateToken (tokenExpiredEvents (client st) (now st)) = 0%nat /\
    count isGenerateToken tail = 0%nat /\
    count isTokenExpiredCallback tail = 0%nat.
Proof.
  intros Hurl Hneeds Hnew.
  apply NewRequest_Ok in Hnew
    as (apiPathURL & request & kv & st1 & tail & _ & _ & Hauth & Hadv & Hq & _).
  apply authHeader_other in Hauth as [_ Hens]; [|done].
  rewrite ensureToken_eq, Hneeds in Hens. injection Hens as _ Hst1.
  destruct Hadv as (_ & _ & Htr). rewrite <- Hst1 in Htr. cbn [trace] in Htr.
  destruct (count_tokenExpiredEvents (client st) (now st)) as [Hg Hc].
  pose proof (count_quiet isGenerateToken tail quiet_not_GenerateToken Hq) as Hgt.
  pose proof (count_quiet isTokenExpiredCallback tail
                          quiet_not_TokenExpiredCallback Hq) as Hct.
  assert (Hadded : added st st'
                   = tokenExpiredEvents (client st) (now st) ++ EvGenerateToken :: tail).
  { apply added_app. rewrite Htr. by rewrite <- !app_assoc. }
  rewrite Hadded. split; [|split].
  - rewrite count_app, Hg. change (EvGenerateToken :: tail) with ([EvGenerateToken] ++ tail).
    by rewrite count_app, Hgt.
  - rewrite count_app, Hc. change (EvGenerateToken :: tail) with ([EvGenerateToken] ++ tail).
    rewrite count_app, Hct. cbn. lia.
  - by exists tail.
Qed.

Lemma NewRequest_client (method apiURL : string) (body : option ReadCloser)
      (st : State) req st' :
  NewRequest method apiURL body st = (Val (Ok req), st') ->
  exists request kv st1,
    authHeader apiURL st = (Val (Ok kv), st1) /\ client st' = client st1 /\
    Method req = Method request /\
    req_Header req
    = setAll (setAll ∅ (baseHeaders request ++ [kv] ++ contentType body))
             (headers (client st')).
Proof.
  intros Hnew. apply NewRequest_Ok in Hnew
    as (apiPathURL & request & kv & st1 & tail & _ & _ & Hauth & Hadv & _ & Hm & Hh).
  destruct Hadv as (Hc & _ & _).
  exists request, kv, st1. by rewrite Hc.
Qed.

(** C2 (amended): the global headers are applied after the computed ones.
    Each of Method, Accept, Authorization and Content-Type carries its
    computed value when no global header has the same canonical key, and
    otherwise the value of the last global header that has it. *)
Theorem NewRequest_global_headers_take_precedence
        (method apiURL : string) (body : option ReadCloser) (st : State) req st' :
  NewRequest method apiURL body st = (Val (Ok req), st') ->
  carries (req_Header req) (headers (client st')) "Method" (Method req) /\
  carries (req_Header req) (headers (client st')) "Accept" "application/json" /\
  (String.eqb apiURL apiTokens = false ->
   carries (req_Header req) (headers (client st')) "Authorization"
           (token (auth (client st')))) /\
  (body <> None ->
   carries (req_Header req) (headers (client st')) "Content-Type" "application/json").
Proof.
  intros Hnew.
  apply NewRequest_client in Hnew as (request & kv & st1 & Hauth & Hc & Hm & Hh).
  assert (Hkv : textproto.CanonicalMIMEHeaderKey (fst kv) = "Authorization"
                \/ textproto.CanonicalMIMEHeaderKey (fst kv) = "X-Lw-Uaks").
  { destruct (String.eqb apiURL apiTokens) eqn:Hurl.
    - rewrite authHeader_tokens in Hauth by done. injection Hauth as <- _. by right.
    - apply authHeader_other in Hauth as [-> _]; [|done]. by left. }
  pose proof (computed_NoDup request kv body Hkv) as Hnd.
  rewrite Hh, Hm. split; [|split; [|split]].
  - apply effective_carries, built_lookup; [done|]. unfold baseHeaders. list_mem.
  - apply effective_carries, built_lookup; [done|]. unfold baseHeaders. list_mem.
  - intros Hurl. apply authHeader_other in Hauth as [Hkv' _]; [|done].
    apply effective_carries, built_lookup; [done|].
    rewrite Hc, <- Hkv'. list_mem.
  - intros Hbody. destruct body as [b|]; [|done].
    apply effective_carries, built_lookup; [done|]. cbn [contentType]. list_mem.
Qed.

(** C6 (amended): building a request for the token-issuance endpoint calls
    neither [GenerateToken] nor the token-expired callback and leaves the
    client as it was. The secret header carries the raw secret when no
    global header has its canonical key (and otherwise the value of the
    last global header that has it), and the request has an Authorization
    header only if the global headers set one. *)
Theorem NewRequest_token_endpoint
        (method apiURL : string) (body : option ReadCloser) (st : State) req st' :
  String.eqb apiURL apiTokens = true ->
  NewRequest method apiURL body st = (Val (Ok req), st') ->
  count isGenerateToken (added st st') = 0%nat /\
  count isTokenExpiredCallback (added st st') = 0%nat /\
  client st' = client st /\
  carries (req_Header req) (headers (client st)) "X-LW-UAKS" (secret (auth (client st))) /\
  req_Header req !! "Authorization" = globalValue (headers (client st)) "Authorization".
Proof.
  intros Hurl Hnew.
  apply NewRequest_Ok in Hnew
    as (apiPathURL & request & kv & st1 & tail & _ & _ & Hauth & Hadv & Hq & _ & Hh).
  rewrite authHeader_tokens in Hauth by done. injection Hauth as <- <-.
  rewrite (advances_added _ _ _ Hadv).
  destruct Hadv as (Hc & _ & _).
  split; [by apply count_quiet; [apply quiet_not_GenerateToken|]|].
  split; [by apply count_quiet; [apply quiet_not_TokenExpiredCallback|]|].
  split; [done|]. rewrite Hh. split.
  - apply effective_carries, built_lookup; [|unfold baseHeaders; list_mem].
    apply computed_NoDup. by right.
  - change "Authorization" with (textproto.CanonicalMIMEHeaderKey "Authorization") at 1.
    rewrite setAll_lookup. fold (globalValue (headers (client st)) "Authorization").
    destruct (globalValue _ _); [done|].
    rewrite setAll_lookup_unset; [apply lookup_empty|].
    unfold baseHeaders. destruct body; cbn [contentType app];
      repeat (constructor; [by vm_compute|]); constructor.
Qed.

(** *** The transport executor *)

Lemma httpResponseBodySniffer_advances (r : Response) (st : State) o st' :
  httpResponseBodySniffer r st = (o, st') ->
  exists r' str l,
    o = Val (r', str) /\ advances st st' l /\ Forall (fun e => quiet e = true) l /\
    sameButBody r r' /\
    (debugMode (client st) = false -> r' = r /\ l = []).
Proof.
  unfold httpResponseBodySniffer, bind, getClient, ret.
  destruct (debugMode (client st)); cbn [negb].
  2:{ intros [= <- <-]. eexists _, _, []. split; [done|].
      split; [apply advances_refl|]. by split; [constructor|]. }
  destruct (res_Body r) as [b|].
  2:{ intros [= <- <-]. eexists _, _, []. split; [done|].
      split; [apply advances_refl|]. by split; [constructor|]. }
  destruct (ContentLength r =? 0).
  { intros [= <- <-]. eexists _, _, []. split; [done|].
    split; [apply advances_refl|]. by split; [constructor|]. }
  destruct (sniffBody b st) as [o1 st1] eqn:Hs.
  apply sniffBody_advances in Hs as (p & l & -> & Hadv & Hq).
  intros [= <- <-]. by eexists _, _, l.
Qed.

(** What a call of [Do] does: the round trip, then (without a transport
    error) the sniffing and the log entry, then the request callback. *)
Lemma Do_inv (req : Request) (st : State) o st' :
  Do req st = (o, st') ->
  exists response l,
    o = Val (response, tr_err (c_Do (client st) req)) /\
    advances st st'
      (EvRoundTrip (Method req) (URL_String (req_URL req)) :: l
         ++ requestCallbackEvents (client st) response) /\
    Forall (fun e => quiet e = true) l /\
    (debugMode (client st) = false -> Forall (fun e => isClose e = false) l) /\
    match tr_response (c_Do (client st) req), response with
    | Some r, Some r' => sameButBody r r'
    | None, None => True
    | _, _ => False
    end.
Proof.
  unfold Do. unfold bind at 1. unfold getClient at 1.
  unfold bind at 1. unfold emit at 1.
  set (st0 := {| client := client st; now := now st;
                 trace := trace st ++ [EvRoundTrip (Method req) (URL_String (req_URL req))] |}).
  assert (Hst0 : advances st st0 [EvRoundTrip (Method req) (URL_String (req_URL req))])
    by done.
  assert (Hcb : forall response (s1 : State) l,
             advances st0 s1 l ->
             exists s2,
               (match RequestCallback (callbacks (client st)), response with
                | Some call, Some r =>
                    emit (EvRequestCallback (StatusCode r) (res_Header r)) ;;;
                    match call (StatusCode r) (res_Header r) with
                    | Some e => emit (EvLog Info "request callback failure"
                                        [("error", FString e)])
                    | None => ret tt
                    end
                | _, _ => ret tt
                end) s1 = (Val tt, s2) /\
               advances st s2
                 (EvRoundTrip (Method req) (URL_String (req_URL req)) :: l
                    ++ requestCallbackEvents (client st) response)).
  { intros response s1 l Hadv.
    pose proof (advances_trans _ _ _ _ _ Hst0 Hadv) as H1. cbn [app] in H1.
    unfold requestCallbackEvents.
    destruct (RequestCallback (callbacks (client st))) as [call|].
    2:{ exists s1. split; [done|]. by rewrite app_nil_r. }
    destruct response as [r|].
    2:{ exists s1. split; [done|]. by rewrite app_nil_r. }
    unfold bind, emit, ret.
    destruct (call (StatusCode r) (res_Header r)) as [e|]; eexists; (split; [done|]).
    - change (EvRoundTrip (Method req) (URL_String (req_URL req)) :: l ++ ?a :: [?b])
        with ((EvRoundTrip (Method req) (URL_String (req_URL req)) :: l) ++ [a] ++ [b]).
      eapply advances_trans; [exact H1|].
      unfold advances. cbn. by rewrite <- app_assoc.
    - change (EvRoundTrip (Method req) (URL_String (req_URL req)) :: l ++ [?a])
        with ((EvRoundTrip (Method req) (URL_String (req_URL req)) :: l) ++ [a]).
      eapply advances_trans; [exact H1|]. by unfold advances. }
  destruct (c_Do (client st) req) as [r|e|r e] eqn:Htr; cbn [tr_response tr_err].
  - unfold bind at 1. unfold bind at 1. rewrite httpHeadersSniffer_eq.
    unfold bind at 1.
    destruct (httpResponseBodySniffer r st0) as [o1 s1] eqn:Hs.
    apply httpResponseBodySniffer_advances in Hs
      as (r' & str & l & -> & Hadv & Hq & Hsame & Hnd).
    unfold bind at 1. unfold emit at 1. unfold ret at 1.
    set (lg := EvLog Info "response" _).
    set (s2 := {| client := client s1; now := now s1; trace := trace s1 ++ [lg] |}).
    assert (Hadv2 : advances st0 s2 (l ++ [lg])).
    { eapply advances_trans; [exact Hadv|]. by unfold advances. }
    destruct (Hcb (Some r') s2 _ Hadv2) as (s3 & Hrun & Hadv3).
    unfold bind at 1. cbn [fst]. rewrite Hrun. unfold ret.
    intros [= <- <-]. exists (Some r'), (l ++ [lg]).
    split; [done|]. split; [done|]. split.
    { apply Forall_app. split; [done|]. by repeat constructor. }
    split; [|done].
    intros Hdbg. destruct (Hnd Hdbg) as [_ ->]. by repeat constructor.
  - unfold bind at 1. unfold ret at 1.
    destruct (Hcb None st0 [] (advances_refl st0)) as (s3 & Hrun & Hadv3).
    unfold bind at 1. rewrite Hrun. unfold ret.
    intros [= <- <-]. exists None, []. split; [done|]. split; [done|]. by repeat split.
  - unfold bind at 1. unfold ret at 1.
    destruct (Hcb (Some r) st0 [] (advances_refl st0)) as (s3 & Hrun & Hadv3).
    unfold bind at 1. rewrite Hrun. unfold ret.
    intros [= <- <-]. exists (Some r), []. split; [done|]. split; [done|]. by repeat split.
Qed.

Lemma filter_quiet (p : Event -> bool) (l : list Event) :
  (forall e, quiet e = true -> p e = false) ->
  Forall (fun e => quiet e = true) l ->
  List.filter p l = [].
Proof.
  intros Hp Hl. induction Hl as [|e l He Hl IH]; [done|].
  cbn. by rewrite (Hp e He).
Qed.

Lemma quiet_not_RequestCallback (e : Event) :
  quiet e = true -> isRequestCallback e = false.
Proof. by destruct e. Qed.

Lemma quiet_not_DecodeAttempt (e : Event) :
  quiet e = true -> isDecodeAttempt e = false.
Proof. by destruct e. Qed.

Lemma filter_requestCallbackEvents (c : Client) (response : option Response) :
  List.filter isRequestCallback (requestCallbackEvents c response)
  = match RequestCallback (callbacks c), response with
    | Some _, Some r => [EvRequestCallback (StatusCode r) (res_Header r)]
    | _, _ => []
    end.
Proof.
  unfold requestCallbackEvents.
  destruct (RequestCallback (callbacks c)) as [call|]; [|done].
  destruct response as [r|]; [|done].
  by destruct (call (StatusCode r) (res_Header r)).
Qed.

(** The request callbacks among the events of a call of [Do]. *)
Lemma Do_callbacks (req : Request) (st : State) o st' :
  Do req st = (o, st') ->
  List.filter isRequestCallback (added st st')
  = match RequestCallback (callbacks (client st)), tr_response (c_Do (client st) req) with
    | Some _, Some r => [EvRequestCallback (StatusCode r) (res_Header r)]
    | _, _ => []
    end.
Proof.
  intros HDo. apply Do_inv in HDo as (response & l & _ & Hadv & Hq & _ & Hres).
  rewrite (advances_added _ _ _ Hadv).
  change (?e :: l ++ ?t) with ([e] ++ l ++ t).
  rewrite !List.filter_app, (filter_quiet _ l quiet_not_RequestCallback Hq).
  rewrite filter_requestCallbackEvents. cbn.
  destruct (RequestCallback (callbacks (client st))) as [call|]; [|done].
  destruct (tr_response (c_Do (client st) req)) as [r|], response as [r'|]; try done.
  by destruct Hres as (-> & _ & -> & _).
Qed.

(** What [Do] returns does not depend on the request callback. *)
Lemma Do_value_independent (req : Request) (st : State)
      (cb : option (Z -> Header -> option Error)) :
  fst (Do req (withRequestCallback st cb)) = fst (Do req st).
Proof.
  destruct st as [[bu au hs [tcb rcb] tr dbg] t trc].
  unfold Do, withRequestCallback, httpHeadersSniffer, httpResponseBodySniffer,
    sniffBody, debugMode, bind, getClient, emit, ret.
  cbn.
  destruct (tr req) as [r|e|r e]; cbn.
  - destruct dbg; cbn.
    + destruct (res_Body r) as [b|]; cbn.
      * destruct (ContentLength r =? 0); cbn.
        -- destruct cb as [c1|], rcb as [c2|]; cbn;
             try destruct (c1 _ _); try destruct (c2 _ _); reflexivity.
        -- destruct (ReadAll b) as [d [e|]]; cbn.
           ++ destruct cb as [c1|], rcb as [c2|]; cbn;
                try destruct (c1 _ _); try destruct (c2 _ _); reflexivity.
           ++ destruct (closeError b); cbn;
                destruct cb as [c1|], rcb as [c2|]; cbn;
                try destruct (c1 _ _); try destruct (c2 _ _); reflexivity.
      * destruct cb as [c1|], rcb as [c2|]; cbn;
          try destruct (c1 _ _); try destruct (c2 _ _); reflexivity.
    + destruct cb as [c1|], rcb as [c2|]; cbn;
        try destruct (c1 _ _); try destruct (c2 _ _); reflexivity.
  - by destruct cb as [c1|], rcb as [c2|].
  - destruct cb as [c1|], rcb as [c2|]; cbn;
      try destruct (c1 _ _); try destruct (c2 _ _); reflexivity.
Qed.

(** C5: when the transport hands [Do] a response, whatever its status, a
    registered request callback is called once, with the status code and
    the headers of that response; and what [Do] returns is the same
    whatever the request callback is or returns. *)
Theorem Do_request_callback (req : Request) (st : State)
        (call : Z -> Header -> option Error) (r : Response) :
  RequestCallback (callbacks (client st)) = Some call ->
  tr_response (c_Do (client st) req) = Some r ->
  exists response st',
    Do req st = (Val (response, tr_err (c_Do (client st) req)), st') /\
    List.filter isRequestCallback (added st st')
    = [EvRequestCallback (StatusCode r) (res_Header r)] /\
    forall cb, fst (Do req (withRequestCallback st cb)) = fst (Do req st).
Proof.
  intros Hcall Hr. destruct (Do req st) as [o st'] eqn:HDo.
  pose proof (Do_callbacks _ _ _ _ HDo) as Hf. rewrite Hcall, Hr in Hf.
  pose proof HDo as Hinv. apply Do_inv in Hinv as (response & l & -> & _).
  exists response, st'. split; [done|]. split; [done|].
  intros cb. rewrite Do_value_independent. by rewrite HDo.
Qed.

(** C9: with a request callback registered, [Do] calls it once when the
    transport returned a response (also when it returned an error with
    it), and does not call it when the transport returned no response. *)
Theorem Do_callback_iff_response (req : Request) (st : State)
        (call : Z -> Header -> option Error) o st' :
  RequestCallback (callbacks (client st)) = Some call ->
  Do req st = (o, st') ->
  (tr_response (c_Do (client st) req) <> None ->
   count isRequestCallback (added st st') = 1%nat) /\
  (tr_response (c_Do (client st) req) = None ->
   count isRequestCallback (added st st') = 0%nat) /\
  (forall r e, c_Do (client st) req = TBoth r e ->
               count isRequestCallback (added st st') = 1%nat).
Proof.
  intros Hcall HDo. unfold count.
  rewrite (Do_callbacks _ _ _ _ HDo), Hcall.
  split; [|split].
  - by destruct (tr_response _).
  - by intros ->.
  - by intros r e ->.
Qed.

(** *** The decode pipeline *)

Lemma count_requestCallbackEvents (p : Event -> bool) (c : Client)
      (response : option Response) :
  (forall e, quiet e = true -> p e = false) ->
  (forall code h, p (EvRequestCallback code h) = false) ->
  count p (requestCallbackEvents c response) = 0%nat.
Proof.
  intros Hq Hp. unfold requestCallbackEvents, count.
  destruct (RequestCallback (callbacks c)) as [call|]; [|done].
  destruct response as [r|]; [|done].
  destruct (call _ _); cbn; rewrite ?Hp, ?(Hq (EvLog _ _ _) eq_refl); done.
Qed.

(** [Do] does not touch the destination of a decode. *)
Lemma Do_no_decode (req : Request) (st : State) o st' :
  Do req st = (o, st') -> count isDecodeAttempt (added st st') = 0%nat.
Proof.
  intros HDo. apply Do_inv in HDo as (response & l & _ & Hadv & Hq & _).
  rewrite (advances_added _ _ _ Hadv).
  change (?e :: l ++ ?t) with ([e] ++ l ++ t).
  rewrite !count_app, (count_quiet _ l quiet_not_DecodeAttempt Hq).
  by rewrite count_requestCallbackEvents; [|apply quiet_not_DecodeAttempt|].
Qed.

(** Without debug mode, [Do] closes nothing. *)
Lemma Do_no_close (req : Request) (st : State) o st' :
  debugMode (client st) = false ->
  Do req st = (o, st') -> count isClose (added st st') = 0%nat.
Proof.
  intros Hdbg HDo. apply Do_inv in HDo as (response & l & _ & Hadv & _ & Hc & _).
  rewrite (advances_added _ _ _ Hadv).
  change (?e :: l ++ ?t) with ([e] ++ l ++ t).
  rewrite !count_app.
  rewrite (count_none _ l (Hc Hdbg)). unfold requestCallbackEvents, count.
  destruct (RequestCallback (callbacks (client st))) as [call|]; [|done].
  destruct response as [r|]; [|done].
  cbn. by destruct (call _ _).
Qed.

(** What [DoDecoder] adds to the call of [Do]: at most one decode attempt. *)
Lemma DoDecoder_inv (req : Request) (v : option Dest) (st : State) o st' :
  DoDecoder req v st = (o, st') ->
  exists p st1 l,
    Do req st = (Val p, st1) /\ advances st1 st' l /\
    Forall (fun e => isDecodeAttempt e = true) l.
Proof.
  unfold DoDecoder. unfold bind at 1.
  destruct (Do req st) as [o1 st1] eqn:HDo.
  pose proof HDo as Hinv. apply Do_inv in Hinv as (response & l0 & -> & _).
  set (err := tr_err _). clearbody err.
  assert (Hnil : exists p st2 l,
             (Val (response, err), st1) = (Val p, st2)
             /\ advances st2 st1 l /\ Forall (fun e => isDecodeAttempt e = true) l).
  { eexists _, st1, []. split; [done|]. split; [apply advances_refl|constructor]. }
  unfold ret, panic.
  destruct response as [res|], err as [e|];
    try (intros [= <- <-]; exact Hnil).
  destruct (StatusCode res =? http_StatusNoContent); [by intros [= <- <-]|].
  destruct (checkErrorInResponse res) as [res2 [e|]]; [by intros [= <- <-]|].
  destruct v as [[w|j]|]; [| |by intros [= <- <-]].
  - unfold bind, emit.
    destruct (res_Body res2) as [b|].
    + destruct (io_Copy w b) as [[w' b'] err]. intros [= <- <-].
      eexists _, st1, [EvCopy]. split; [done|]. split; [done|]. by repeat constructor.
    + intros [= <- <-].
      eexists _, st1, [EvCopy]. split; [done|]. split; [done|]. by repeat constructor.
  - unfold bind, emit.
    destruct (res_Body res2) as [b|].
    + destruct (json_Decode b j) as [[b' j'] err]. intros [= <- <-].
      eexists _, st1, [EvDecode]. split; [done|]. split; [done|]. by repeat constructor.
    + intros [= <- <-].
      eexists _, st1, [EvDecode]. split; [done|]. split; [done|]. by repeat constructor.
Qed.

(** C3: when [Do] hands [DoDecoder] a response with status 204,
    [DoDecoder] returns that response and no error, makes no decode
    attempt (neither a copy nor a JSON decode), and leaves the destination
    as it was, whatever the destination is. *)
Theorem DoDecoder_no_content (req : Request) (v : option Dest) (st : State)
        (res : Response) st' :
  Do req st = (Val (Some res, None), st') ->
  StatusCode res = http_StatusNoContent ->
  DoDecoder req v st = (Val (Some res, None, v), st') /\
  count isDecodeAttempt (added st st') = 0%nat.
Proof.
  intros HDo Hcode. split; [|by eapply Do_no_decode].
  unfold DoDecoder, bind. rewrite HDo.
  apply Z.eqb_eq in Hcode. by rewrite Hcode.
Qed.

(** C4: when [Do] hands [DoDecoder] a response whose status is not 204
    and in which the API-level check finds an error, [DoDecoder] returns
    that error, makes no decode attempt, and leaves the destination as it
    was. *)
Theorem DoDecoder_api_error (req : Request) (v : option Dest) (st : State)
        (res res2 : Response) (e : Error) st' :
  Do req st = (Val (Some res, None), st') ->
  StatusCode res <> http_StatusNoContent ->
  checkErrorInResponse res = (res2, Some e) ->
  DoDecoder req v st = (Val (Some res2, Some e, v), st') /\
  count isDecodeAttempt (added st st') = 0%nat.
Proof.
  intros HDo Hcode Hcheck. split; [|by eapply Do_no_decode].
  unfold DoDecoder, bind. rewrite HDo.
  apply Z.eqb_neq in Hcode. by rewrite Hcode, Hcheck.
Qed.

(** C8 (what the code does): when [DoDecoder] returns a response together
    with an error, [RequestDecoder] returns that error in the state that
    [DoDecoder] left: the deferred [Close] is not reached, and without
    debug mode nothing closed the body of the response. *)
Theorem RequestDecoder_error_skips_Close
        (method path : string) (body : option ReadCloser) (v : option Dest)
        (st : State) request st1 (res : Response) (e : Error) v' st2 :
  NewRequest method path body st = (Val (Ok request), st1) ->
  debugMode (client st1) = false ->
  DoDecoder request v st1 = (Val (Some res, Some e, v'), st2) ->
  RequestDecoder method path body v st = (Val (Some e, v'), st2) /\
  count isClose (added st1 st2) = 0%nat.
Proof.
  intros Hnew Hdbg Hdec. split.
  - unfold RequestDecoder, bind. by rewrite Hnew, Hdec.
  - apply DoDecoder_inv in Hdec as (p & s & l & HDo & Hadv & Hl).
    pose proof (Do_no_close _ _ _ _ Hdbg HDo) as Hc.
    pose proof HDo as Hinv. apply Do_inv in Hinv as (? & l0 & _ & Hadv0 & _).
    rewrite (advances_added _ _ _ (advances_trans _ _ _ _ _ Hadv0 Hadv)).
    rewrite (advances_added _ _ _ Hadv0) in Hc.
    rewrite count_app, Hc. apply count_none.
    eapply Forall_impl; [exact Hl|]. by intros [].
Qed.

(** The path on which [RequestDecoder] does close the body. *)
Lemma RequestDecoder_success_closes
      (method path : string) (body : option ReadCloser) (v : option Dest)
      (st : State) request st1 (res : Response) (b : ReadCloser) v' st2 :
  NewRequest method path body st = (Val (Ok request), st1) ->
  DoDecoder request v st1 = (Val (Some res, None, v'), st2) ->
  res_Body res = Some b ->
  RequestDecoder method path body v st
  = (Val (None, v'), {| client := client st2; now := now st2;
                        trace := trace st2 ++ [EvClose b] |}).
Proof.
  intros Hnew Hdec Hb. unfold RequestDecoder, bind. by rewrite Hnew, Hdec, Hb.
Qed.

(** *** Sniffing *)

Lemma sniffBody_succeeds (body : ReadCloser) (st : State) :
  snd (ReadAll body) = None -> closeError body = None ->
  exists b' str st', sniffBody body st = (Val (Some b', str), st').
Proof.
  intros Hr Hc. rewrite sniffBody_eq, Hr, Hc. by eexists _, _, _.
Qed.


(** C10: in debug mode, when sniffing the body of a request (one that is
    neither nil nor [http.NoBody]) or of a response (one that is not nil,
    with a content length other than 0) fails, the sniffer leaves the
    request or the response with a nil body and returns the empty string;
    the response that [Do] then returns has a nil body. *)
Theorem sniff_failure_drops_body (st : State) (rq : Request) (rs : Response)
        (b1 b2 : ReadCloser) :
  debugMode (client st) = true ->
  req_Body rq = Some b1 -> isNoBody b1 = false -> sniffFails b1 ->
  res_Body rs = Some b2 -> ContentLength rs <> 0 -> sniffFails b2 ->
  (exists st', httpRequestBodySniffer rq st = (Val (setReqBody rq None, ""), st')) /\
  (exists st', httpResponseBodySniffer rs st = (Val (setResBody rs None, ""), st')) /\
  (forall req, c_Do (client st) req = TResponse rs ->
               exists st', Do req st = (Val (Some (setResBody rs None), None), st')).
Proof.
  intros Hdbg Hb1 Hnb Hf1 Hb2 Hlen Hf2.
  assert (Hsniff : forall b s, sniffFails b ->
                               exists s', sniffBody b s = (Val (None, ""), s')
                                          /\ client s' = client s).
  { intros b s [Hr|Hc]; rewrite sniffBody_eq.
    - destruct (snd (ReadAll b)); [by eexists|done].
    - destruct (snd (ReadAll b)); [by eexists|].
      destruct (closeError b); [by eexists|done]. }
  assert (Hres : forall s, debugMode (client s) = true ->
                           exists s', httpResponseBodySniffer rs s
                                      = (Val (setResBody rs None, ""), s')
                                      /\ client s' = client s).
  { intros s Hs. unfold httpResponseBodySniffer, bind, getClient, ret.
    rewrite Hs, Hb2. cbn [negb]. apply Z.eqb_neq in Hlen. rewrite Hlen.
    destruct (Hsniff b2 s Hf2) as (s' & -> & Hc). by exists s'. }
  split; [|split].
  - unfold httpRequestBodySniffer, bind, getClient, ret.
    rewrite Hdbg, Hb1, Hnb. cbn [negb].
    destruct (Hsniff b1 st Hf1) as (s' & -> & _). by exists s'.
  - destruct (Hres st Hdbg) as (s' & -> & _). by exists s'.
  - intros req Htr. unfold Do. unfold bind at 1. unfold getClient at 1.
    unfold bind at 1. unfold emit at 1. cbn [client]. rewrite Htr.
    unfold bind at 1. unfold bind at 1. rewrite httpHeadersSniffer_eq.
    unfold bind at 1.
    edestruct (Hres {| client := client st; now := now st;
                       trace := trace st ++ [EvRoundTrip (Method req) (URL_String (req_URL req))] |})
      as (s' & -> & Hc); [done|].
    unfold bind, emit, ret. cbn [fst snd tr_err].
    destruct (RequestCallback (callbacks (client st))) as [call|]; [|by eexists].
    cbn. destruct (call _ _); by eexists.
Qed.

End Properties.

(** *** The properties on the sample environment *)

Module OnSample.

Import Sample.

(** With no token and an unexpired expiry instant the registered
    token-expired callback is not called, although the token is
    regenerated. *)
Lemma regenerates_and_notifies_once_fails :
  ~ regenerates_and_notifies_once "GET" "AlertRules" None emptyToken.
Proof.
  intros H.
  assert (E : NewRequest "GET" "AlertRules" None emptyToken
              = (Val (Ok (built (newRules emptyToken))), snd (newRules emptyToken)))
    by (reflexivity).
  destruct (H eq_refl eq_refl _ _ E) as [_ Hcb].
  specialize (Hcb eq_refl). vm_compute in Hcb. discriminate Hcb.
Qed.

Lemma NewRequest_regenerates_once_witness :
  let run := newRules expiredToken in
  count isGenerateToken (added expiredToken (snd run)) = 1%nat /\
  count isTokenExpiredCallback (added expiredToken (snd run))
  = (if hasTokenExpiredCallback (client expiredToken)
        && TokenExpired (client expiredToken) (now expiredToken)
     then 1 else 0)%nat /\
  exists tail,
    added expiredToken (snd run)
    = tokenExpiredEvents (client expiredToken) (now expiredToken)
        ++ EvGenerateToken :: tail /\
    count isGenerateToken
          (tokenExpiredEvents (client expiredToken) (now expiredToken)) = 0%nat /\
    count isGenerateToken tail = 0%nat /\
    count isTokenExpiredCallback tail = 0%nat.
Proof.
  intros run.
  apply (NewRequest_regenerates_once "GET" "AlertRules" None expiredToken
                                     (built run) (snd run));
    [reflexivity | reflexivity | reflexivity].
Defined.

(** A global header named Accept replaces the computed Accept header. *)
Lemma computed_headers_prevail_fails :
  ~ computed_headers_prevail "GET" "AlertRules" None acceptOverridden.
Proof.
  intros H.
  assert (E : NewRequest "GET" "AlertRules" None acceptOverridden
              = (Val (Ok (built (newRules acceptOverridden))),
                 snd (newRules acceptOverridden)))
    by (reflexivity).
  destruct (H _ _ E) as (_ & Haccept & _).
  vm_compute in Haccept. discriminate Haccept.
Qed.

Lemma NewRequest_global_headers_take_precedence_witness :
  let run := newRules acceptOverridden in
  carries (req_Header (built run)) (headers (client (snd run)))
          "Method" (Method (built run)) /\
  carries (req_Header (built run)) (headers (client (snd run)))
          "Accept" "application/json" /\
  (String.eqb "AlertRules" apiTokens = false ->
   carries (req_Header (built run)) (headers (client (snd run))) "Authorization"
           (token (auth (client (snd run))))) /\
  ((None : option ReadCloser) <> None ->
   carries (req_Header (built run)) (headers (client (snd run)))
           "Content-Type" "application/json").
Proof.
  intros run.
  apply (NewRequest_global_headers_take_precedence
           "GET" "AlertRules" None acceptOverridden (built run) (snd run)).
  reflexivity.
Defined.

(** A global header named like the secret header replaces the secret. *)
Lemma token_request_carries_secret_fails :
  ~ token_request_carries_secret "POST" (Some (NopCloser (json "{}"))) secretShadowed.
Proof.
  intros H.
  assert (E : NewRequest "POST" apiTokens (Some (NopCloser (json "{}"))) secretShadowed
              = (Val (Ok (built (newToken secretShadowed))),
                 snd (newToken secretShadowed)))
    by (reflexivity).
  destruct (H _ _ E) as (Hsecret & _).
  vm_compute in Hsecret. discriminate Hsecret.
Qed.

Lemma NewRequest_token_endpoint_witness :
  let run := newToken userAgentOnly in
  count isGenerateToken (added userAgentOnly (snd run)) = 0%nat /\
  count isTokenExpiredCallback (added userAgentOnly (snd run)) = 0%nat /\
  client (snd run) = client userAgentOnly /\
  carries (req_Header (built run)) (headers (client userAgentOnly))
          "X-LW-UAKS" (secret (auth (client userAgentOnly))) /\
  req_Header (built run) !! "Authorization"
  = globalValue (headers (client userAgentOnly)) "Authorization".
Proof.
  intros run.
  apply (NewRequest_token_endpoint
           "POST" "access/tokens" (Some (NopCloser (json "{}"))) userAgentOnly
           (built run) (snd run));
    [reflexivity | reflexivity].
Defined.

Lemma DoDecoder_no_content_witness :
  let st := answering (okResponse 204 []) false in
  let run := doRules st in
  DoDecoder getRules intoValue st
  = (Val (Some (answered run), None, intoValue), snd run) /\
  count isDecodeAttempt (added st (snd run)) = 0%nat.
Proof.
  intros st run.
  apply (DoDecoder_no_content getRules intoValue st (answered run) (snd run));
    [reflexivity | reflexivity].
Defined.

Lemma DoDecoder_api_error_witness :
  let st := answering (okResponse 500 (json "boom")) false in
  let run := doRules st in
  DoDecoder getRules intoValue st
  = (Val (Some (fst (checkErrorInResponse (answered run))), Some "api error", intoValue),
     snd run) /\
  count isDecodeAttempt (added st (snd run)) = 0%nat.
Proof.
  intros st run.
  apply (DoDecoder_api_error getRules intoValue st (answered run)
                             (fst (checkErrorInResponse (answered run)))
                             "api error" (snd run));
    [reflexivity | vm_compute; discriminate | reflexivity].
Defined.

Lemma Do_request_callback_witness :
  let st := answering (okResponse 500 (json "boom")) false in
  exists response st',
    Do getRules st = (Val (response, tr_err (c_Do (client st) getRules)), st') /\
    List.filter isRequestCallback (added st st')
    = [EvRequestCallback (StatusCode (okResponse 500 (json "boom")))
                         (res_Header (okResponse 500 (json "boom")))] /\
    forall cb, fst (Do getRules (withRequestCallback st cb)) = fst (Do getRules st).
Proof.
  intros st.
  apply (Do_request_callback getRules st (fun _ _ => Some "callback failed")
                             (okResponse 500 (json "boom")));
    reflexivity.
Defined.

Lemma Do_callback_iff_response_witness :
  let st := start (mkSample "token" 100 [] notify unreachable false) 0 in
  let run := doRules st in
  (tr_response (c_Do (client st) getRules) <> None ->
   count isRequestCallback (added st (snd run)) = 1%nat) /\
  (tr_response (c_Do (client st) getRules) = None ->
   count isRequestCallback (added st (snd run)) = 0%nat) /\
  (forall r e, c_Do (client st) getRules = TBoth r e ->
               count isRequestCallback (added st (snd run)) = 1%nat).
Proof.
  intros st run.
  apply (Do_callback_iff_response getRules st (fun _ _ => Some "callback failed")
                                  (fst run) (snd run));
    [reflexivity | reflexivity].
Defined.


Lemma sniff_failure_drops_body_witness :
  let st := answering brokenResponse true in
  (exists st', httpRequestBodySniffer brokenRequest st
               = (Val (setReqBody brokenRequest None, ""), st')) /\
  (exists st', httpResponseBodySniffer brokenResponse st
               = (Val (setResBody brokenResponse None, ""), st')) /\
  (forall req, c_Do (client st) req = TResponse brokenResponse ->
               exists st', Do req st
                           = (Val (Some (setResBody brokenResponse None), None), st')).
Proof.
  intros st.
  apply (sniff_failure_drops_body st brokenRequest brokenResponse broken broken);
    [reflexivity | reflexivity | reflexivity | left; vm_compute; discriminate
     | reflexivity | vm_compute; discriminate | left; vm_compute; discriminate].
Defined.

(** The failing input of C8: a 200 response whose body is no JSON. The
    decode fails, [RequestDecoder] returns the error, and nothing closed
    the body of the response. *)
Lemma RequestDecoder_error_skips_Close_witness :
  let st := answering (okResponse 200 (json "oops")) false in
  let dec := decodeRules intoValue st in
  RequestDecoder "GET" "AlertRules" None intoValue st
  = (Val (Some "invalid character", intoValue), snd dec) /\
  count isClose (added (snd (newRules st)) (snd dec)) = 0%nat.
Proof.
  intros st dec.
  apply (RequestDecoder_error_skips_Close
           "GET" "AlertRules" None intoValue st (built (newRules st))
           (snd (newRules st))
           (setResBody (okResponse 200 (json "oops")) (Some (Stream [] None None)))
           "invalid character" intoValue (snd dec));
    reflexivity.
Defined.

(** The same call on three servers: after a decode error and after an API
    error no [Close] is in the trace; after a success there is one. *)
Example RequestDecoder_closes_only_on_success :
  let run r := RequestDecoder "GET" "AlertRules" None intoValue (answering r false) in
  errorAndCloses (run (okResponse 200 (json "oops")))
  = (Some (Some "invalid character"), 0%nat) /\
  errorAndCloses (run (okResponse 500 (json "boom")))
  = (Some (Some "api error"), 0%nat) /\
  errorAndCloses (run (okResponse 200 (json "{}"))) = (Some None, 1%nat).
Proof. vm_compute. by repeat split. Qed.

End OnSample.


(** ** Further properties of the pipeline *)

Lemma count_le_length (p : Event -> bool) (l : list Event) :
(count p l <= length l)%nat.
Proof. unfold count. apply List.filter_length_le. Qed.

Section Further.

Context {N : Net} {P : Pkg}.

(** *** The request builder *)

Lemma authHeader_eq (apiURL : string) (st : State) :
authHeader apiURL st =
if String.eqb apiURL apiTokens
then (Val (Ok ("X-LW-UAKS", secret (auth (client st)))), st)
else if needsToken st
     then (Val (match snd (GenerateToken (client st)) with
                | Some e => Err e
                | None => Ok ("Authorization",
                              token (auth (fst (GenerateToken (client st)))))
                end),
           regenerated st)
     else (Val (Ok ("Authorization", token (auth (client st)))), st).
Proof.
  unfold authHeader, bind, getClient, ret.
  destruct (String.eqb apiURL apiTokens); [done|].
  rewrite ensureToken_eq. unfold regenerated.
  destruct (needsToken st); [|done].
  by destruct (snd (GenerateToken (client st))).
Qed.


(** A call of [NewRequest] whose path parses, whose request is created and
    that gets its authentication entry. *)
Lemma NewRequest_eq (method apiURL : string) (body : option ReadCloser) (st : State)
      p request kv st1 :
url_Parse (apiPath (client st) apiURL) = Ok p ->
http_NewRequest method (URL_String (ResolveReference (baseURL (client st)) p)) body
= Ok request ->
authHeader apiURL st = (Val (Ok kv), st1) ->
NewRequest method apiURL body st =
match httpRequestBodySniffer (assembled request kv body (client st1)) st1 with
| (Val (req, str), st2) =>
    (Val (Ok req),
     {| client := client st2; now := now st2;
        trace := trace st2
                 ++ [requestLog (assembled request kv body (client st1)) (client st1) p
                       (if negb (debugMode (client st1)) then FString "suppressed"
                        else FHeader (req_Header (assembled request kv body (client st1))))
                       str] |})
| (Panicked msg, st2) => (Panicked msg, st2)
end.
Proof.
  intros Hp Hr Ha. unfold NewRequest. unfold bind at 1. unfold getClient at 1.
  rewrite Hp, Hr. unfold bind at 1. rewrite Ha.
  unfold bind at 1. unfold getClient at 1.
  unfold bind at 1. rewrite httpHeadersSniffer_eq.
  unfold bind at 1. fold (assembled request kv body (client st1)).
  destruct (httpRequestBodySniffer _ st1) as [[[req str]|msg] st2]; [|done].
  by unfold bind, emit, ret, requestLog.
Qed.

(** The shape of every call of [NewRequest]: it does not panic; its events
    are those of the regeneration, if there was one, and then log entries
    and closes. *)
Lemma NewRequest_shape (method apiURL : string) (body : option ReadCloser)
      (st : State) o st' :
NewRequest method apiURL body st = (o, st') ->
exists r st1 tail,
  o = Val r /\ advances st1 st' tail /\ Forall (fun e => quiet e = true) tail /\
  (st1 = st \/
   (String.eqb apiURL apiTokens = false /\ needsToken st = true /\ st1 = regenerated st)).
Proof.
  intros Hnew.
  destruct (url_Parse (apiPath (client st) apiURL)) as [p|e] eqn:Hp.
  2:{ unfold NewRequest, bind, getClient, ret in Hnew. rewrite Hp in Hnew.
      injection Hnew as <- <-. eexists _, st, []. split; [done|].
      split; [apply advances_refl|]. split; [constructor|by left]. }
  destruct (http_NewRequest method (URL_String (ResolveReference (baseURL (client st)) p)) body)
    as [request|e] eqn:Hr.
  2:{ unfold NewRequest, bind, getClient, ret in Hnew. rewrite Hp, Hr in Hnew.
      injection Hnew as <- <-. eexists _, st, []. split; [done|].
      split; [apply advances_refl|]. split; [constructor|by left]. }
  assert (Hst1 : forall a st1, authHeader apiURL st = (Val a, st1) ->
                 st1 = st \/ (String.eqb apiURL apiTokens = false /\ needsToken st = true
                              /\ st1 = regenerated st)).
  { intros a st1. rewrite authHeader_eq.
    destruct (String.eqb apiURL apiTokens); [intros [= _ <-]; by left|].
    destruct (needsToken st); intros [= _ <-]; [by right|by left]. }
  destruct (authHeader apiURL st) as [[[kv|e]|msg] st1] eqn:Ha.
  - rewrite (NewRequest_eq _ _ _ _ _ _ _ _ Hp Hr Ha) in Hnew.
    destruct (httpRequestBodySniffer _ st1) as [o2 st2] eqn:Hs.
    apply httpRequestBodySniffer_advances in Hs as (r' & str & l & -> & Hadv & Hq & _).
    injection Hnew as <- <-. eexists _, st1, (l ++ [_]). split; [done|].
    split; [|split; [|by eapply Hst1]].
    + eapply advances_trans; [exact Hadv|]. by unfold advances.
    + apply Forall_app. split; [done|]. by repeat constructor.
  - unfold NewRequest, bind, getClient, ret in Hnew. rewrite Hp, Hr, Ha in Hnew.
    injection Hnew as <- <-. eexists _, st1, []. split; [done|].
    split; [apply advances_refl|]. split; [constructor|by eapply Hst1].
  - rewrite authHeader_eq in Ha.
    destruct (String.eqb apiURL apiTokens); [done|]. by destruct (needsToken st).
Qed.

Lemma added_regenerated (st : State) :
added st (regenerated st) = tokenExpiredEvents (client st) (now st) ++ [EvGenerateToken].
Proof. by apply added_app. Qed.


(** The Authorization header of a request for another endpoint than the
    token-issuance one. *)
Lemma NewRequest_authorization (method apiURL : string) (body : option ReadCloser)
      (st : State) req st' :
String.eqb apiURL apiTokens = false ->
NewRequest method apiURL body st = (Val (Ok req), st') ->
carries (req_Header req) (headers (client st')) "Authorization"
        (token (auth (client st'))).
Proof.
  intros Hurl Hnew.
  apply NewRequest_client in Hnew as (request & kv & st1 & Hauth & Hc & _ & Hh).
  apply authHeader_other in Hauth as [Hkv _]; [|done].
  rewrite Hh. apply effective_carries, built_lookup.
  - apply computed_NoDup. rewrite Hkv. by left.
  - rewrite Hc, <- Hkv. list_mem.
Qed.

(** X2: with a token that is held and not expired, building a request for
    another endpoint than the token-issuance one calls neither
    [GenerateToken] nor the token-expired callback and leaves the client and
    the clock as they were; the Authorization header it computes is the
    held token. *)
Theorem NewRequest_keeps_valid_token (method apiURL : string)
        (body : option ReadCloser) (st : State) o st' :
String.eqb apiURL apiTokens = false ->
needsToken st = false ->
NewRequest method apiURL body st = (o, st') ->
count isGenerateToken (added st st') = 0%nat /\
count isTokenExpiredCallback (added st st') = 0%nat /\
client st' = client st /\ now st' = now st /\
(forall req, o = Val (Ok req) ->
             carries (req_Header req) (headers (client st)) "Authorization"
                     (token (auth (client st)))).
Proof.
  intros Hurl Hneeds Hnew. pose proof Hnew as Hshape.
  apply NewRequest_shape in Hshape as (r & st1 & tail & -> & Hadv & Hq & Hst1).
  destruct Hst1 as [->|(_ & Hn & _)]; [|congruence].
  rewrite (advances_added _ _ _ Hadv). destruct Hadv as (Hc & Hn & _).
  split; [by apply count_quiet; [apply quiet_not_GenerateToken|]|].
  split; [by apply count_quiet; [apply quiet_not_TokenExpiredCallback|]|].
  split; [done|]. split; [done|].
  intros req [= ->].
  pose proof (NewRequest_authorization _ _ _ _ _ _ Hurl Hnew) as Hauth.
  by rewrite Hc in Hauth.
Qed.

(** X3: when the token was regenerated and the request is returned, the
    client is the one [GenerateToken] left, and the Authorization header the
    builder computes is the token of that client, not the one held
    before. *)
Theorem NewRequest_uses_regenerated_token (method apiURL : string)
        (body : option ReadCloser) (st : State) req st' :
String.eqb apiURL apiTokens = false ->
needsToken st = true ->
NewRequest method apiURL body st = (Val (Ok req), st') ->
snd (GenerateToken (client st)) = None /\
client st' = fst (GenerateToken (client st)) /\
carries (req_Header req) (headers (fst (GenerateToken (client st)))) "Authorization"
        (token (auth (fst (GenerateToken (client st))))).
Proof.
  intros Hurl Hneeds Hnew.
  pose proof (NewRequest_authorization _ _ _ _ _ _ Hurl Hnew) as Hauth.
  apply NewRequest_Ok in Hnew
    as (p & request & kv & st1 & tail & _ & _ & Ha & Hadv & _).
  rewrite authHeader_eq, Hurl, Hneeds in Ha.
  destruct (snd (GenerateToken (client st))) eqn:Hgen; [done|].
  injection Ha as _ <-. destruct Hadv as (Hc & _).
  cbn [regenerated client] in Hc. rewrite Hc in Hauth. by rewrite Hc.
Qed.

(** X4: when the client needs a token and [GenerateToken] fails, a call of
    [NewRequest] that got past the creation of the request returns the error
    of [GenerateToken]; it has called the token-expired callback (if due) and
    [GenerateToken] once and has written no request log entry. *)
Theorem NewRequest_regeneration_failure (method apiURL : string)
        (body : option ReadCloser) (st : State) (e : Error) :
String.eqb apiURL apiTokens = false ->
needsToken st = true ->
canBuild method apiURL body st = true ->
snd (GenerateToken (client st)) = Some e ->
NewRequest method apiURL body st = (Val (Err e), regenerated st) /\
added st (regenerated st)
= tokenExpiredEvents (client st) (now st) ++ [EvGenerateToken].
Proof.
  intros Hurl Hneeds Hbuild Hgen. split; [|apply added_regenerated].
  unfold canBuild in Hbuild.
  destruct (url_Parse (apiPath (client st) apiURL)) as [p|] eqn:Hp; [|done].
  destruct (http_NewRequest _ _ _) as [request|] eqn:Hr; [|done].
  unfold NewRequest. unfold bind at 1. unfold getClient at 1.
  rewrite Hp, Hr. unfold bind at 1.
  by rewrite authHeader_eq, Hurl, Hneeds, Hgen.
Qed.

(** X5: whatever it returns, a call of [NewRequest] calls [GenerateToken] at
    most once and the token-expired callback at most once, never for the
    token-issuance endpoint, and leaves the clock as it was; without a call
    of [GenerateToken] the client is unchanged. *)
Theorem NewRequest_regenerates_at_most_once (method apiURL : string)
        (body : option ReadCloser) (st : State) o st' :
NewRequest method apiURL body st = (o, st') ->
(count isGenerateToken (added st st') <= 1)%nat /\
(count isTokenExpiredCallback (added st st') <= 1)%nat /\
now st' = now st /\
(count isGenerateToken (added st st') = 0%nat -> client st' = client st) /\
(String.eqb apiURL apiTokens = true -> count isGenerateToken (added st st') = 0%nat).
Proof.
  intros Hnew.
  apply NewRequest_shape in Hnew as (r & st1 & tail & -> & Hadv & Hq & Hst1).
  pose proof (count_quiet _ tail quiet_not_GenerateToken Hq) as Hg.
  pose proof (count_quiet _ tail quiet_not_TokenExpiredCallback Hq) as Hc.
  destruct Hst1 as [->|(Hurl & Hneeds & ->)].
  - rewrite (advances_added _ _ _ Hadv), Hg, Hc.
    destruct Hadv as (Hcl & Hn & _). repeat split; auto.
  - assert (Hadd : added st st'
                   = (tokenExpiredEvents (client st) (now st) ++ [EvGenerateToken]) ++ tail).
    { apply added_app. destruct Hadv as (_ & _ & ->). cbn [regenerated trace].
      by rewrite <- !app_assoc. }
    destruct (count_tokenExpiredEvents (client st) (now st)) as [Hg0 Hc0].
    rewrite Hadd, !count_app, Hg, Hc, Hg0, Hc0.
    destruct Hadv as (_ & Hn & _). cbn.
    split; [lia|]. split; [destruct (_ && _); lia|]. split; [done|].
    split; [lia|]. congruence.
Qed.

(** X6: a request that is built without a body has a Content-Type header
    only if the global headers set one. *)
Theorem NewRequest_content_type_without_body (method apiURL : string)
        (st : State) req st' :
NewRequest method apiURL None st = (Val (Ok req), st') ->
req_Header req !! "Content-Type" = globalValue (headers (client st')) "Content-Type".
Proof.
  intros Hnew.
  apply NewRequest_client in Hnew as (request & kv & st1 & Hauth & Hc & _ & Hh).
  assert (Hkv : textproto.CanonicalMIMEHeaderKey (fst kv) = "Authorization"
                \/ textproto.CanonicalMIMEHeaderKey (fst kv) = "X-Lw-Uaks").
  { rewrite authHeader_eq in Hauth.
    destruct (String.eqb apiURL apiTokens); [injection Hauth as <- _; by right|].
    destruct (needsToken st); [|injection Hauth as <- _; by left].
    destruct (snd (GenerateToken (client st))); [done|].
    injection Hauth as <- _; by left. }
  rewrite Hh.
  change "Content-Type" with (textproto.CanonicalMIMEHeaderKey "Content-Type") at 1.
  rewrite setAll_lookup. fold (globalValue (headers (client st')) "Content-Type").
  destruct (globalValue _ _); [done|].
  rewrite setAll_lookup_unset; [apply lookup_empty|].
  unfold baseHeaders. cbn [contentType app].
  repeat (constructor; [cbn [fst]; first [by vm_compute | destruct Hkv as [-> | ->]; done]|]).
  constructor.
Qed.

(** X7: the request carries every global header (for a key that several
    entries set, the last one visited), and it has no header whose key is
    neither one of the computed keys nor the canonical key of a global
    header. *)
Theorem NewRequest_header_complete (method apiURL : string)
        (body : option ReadCloser) (st : State) req st' :
NewRequest method apiURL body st = (Val (Ok req), st') ->
(forall g0 k v g1,
    headers (client st') = g0 ++ (k, v) :: g1 ->
    unset g1 k ->
    req_Header req !! textproto.CanonicalMIMEHeaderKey k = Some [v]) /\
(forall i,
    i ∉ computedKeys ->
    Forall (fun kv => textproto.CanonicalMIMEHeaderKey (fst kv) <> i)
           (headers (client st')) ->
    req_Header req !! i = None).
Proof.
  intros Hnew.
  apply NewRequest_client in Hnew as (request & kv & st1 & Hauth & Hc & _ & Hh).
  assert (Hkv : textproto.CanonicalMIMEHeaderKey (fst kv) = "Authorization"
                \/ textproto.CanonicalMIMEHeaderKey (fst kv) = "X-Lw-Uaks").
  { rewrite authHeader_eq in Hauth.
    destruct (String.eqb apiURL apiTokens); [injection Hauth as <- _; by right|].
    destruct (needsToken st); [|injection Hauth as <- _; by left].
    destruct (snd (GenerateToken (client st))); [done|].
    injection Hauth as <- _; by left. }
  rewrite Hh. split.
  - intros g0 k v g1 -> Hu.
    rewrite setAll_app, setAll_cons, setAll_lookup_unset by exact Hu.
    cbn [fst snd]. unfold Header_Set. by rewrite lookup_insert_eq.
  - intros i Hi Hg. rewrite setAll_lookup_unset by exact Hg.
    rewrite setAll_lookup_unset; [apply lookup_empty|].
    unfold computedKeys in Hi. unfold baseHeaders.
    apply Forall_app. split; [|apply Forall_app; split].
    + repeat constructor; cbn [fst]; intros <-; apply Hi; list_mem.
    + repeat constructor; cbn [fst]; intros <-; apply Hi;
        destruct Hkv as [-> | ->]; list_mem.
    + destruct body; cbn [contentType]; repeat constructor.
      cbn [fst]. intros <-. apply Hi. list_mem.
Qed.

(** X8: the headers that [NewRequest] computes have distinct canonical keys,
    so the order in which the range statement of line 77 visits the map does
    not show in the request. *)
Theorem computed_headers_order_irrelevant (apiURL : string) (st : State)
        (request : Request) (body : option ReadCloser) kv st1
        (m' : list (string * string)) (h : Header) :
authHeader apiURL st = (Val (Ok kv), st1) ->
Permutation (baseHeaders request ++ [kv] ++ contentType body) m' ->
setAll h m' = setAll h (baseHeaders request ++ [kv] ++ contentType body).
Proof.
  intros Hauth Hperm. symmetry. apply setAll_Permutation; [|done].
  apply computed_NoDup.
  rewrite authHeader_eq in Hauth.
  destruct (String.eqb apiURL apiTokens); [injection Hauth as <- _; by right|].
  destruct (needsToken st); [|injection Hauth as <- _; by left].
  destruct (snd (GenerateToken (client st))); [done|].
  injection Hauth as <- _; by left.
Qed.

Lemma redacted_quiet_close (l : list Event) :
Forall (fun e => isClose e = true) l -> Forall (fun e => redacted e = true) l.
Proof. intros H. eapply Forall_impl; [exact H|]. by intros []. Qed.





(** *** The transport executor *)

Lemma httpResponseBodySniffer_eq (r : Response) (st : State) :
httpResponseBodySniffer r st =
if negb (debugMode (client st)) then (Val (r, "suppressed"), st)
else match res_Body r with
     | None => (Val (r, ""), st)
     | Some b =>
         if ContentLength r =? 0 then (Val (r, ""), st)
         else match snd (ReadAll b) with
              | Some _ => (Val (setResBody r None, ""), st)
              | None =>
                  (Val (match closeError b with
                        | Some _ => (setResBody r None, "")
                        | None => (setResBody r (Some (NopCloser (fst (ReadAll b)))),
                                   string_of_list_byte (fst (ReadAll b)))
                        end),
                   {| client := client st; now := now st;
                      trace := trace st ++ [EvClose b] |})
              end
     end.
Proof.
  unfold httpResponseBodySniffer, bind, getClient, ret.
  destruct (negb (debugMode (client st))); [done|].
  destruct (res_Body r) as [b|]; [|done].
  destruct (ContentLength r =? 0); [done|].
  rewrite sniffBody_eq.
  destruct (snd (ReadAll b)); [done|]. by destruct (closeError b).
Qed.

(** A call of [Do], case by case. *)
Lemma Do_eq (req : Request) (st : State) :
Do req st =
match c_Do (client st) req with
| TResponse r =>
    match httpResponseBodySniffer r
            {| client := client st; now := now st;
               trace := trace st ++ [EvRoundTrip (Method req) (URL_String (req_URL req))] |}
    with
    | (Val (r', str), st1) =>
        (Val (Some r', None),
         {| client := client st1; now := now st1;
            trace := trace st1
                     ++ responseLog req r
                          (if negb (debugMode (client st)) then FString "suppressed"
                           else FHeader (res_Header r)) str
                     :: requestCallbackEvents (client st) (Some r') |})
    | (Panicked msg, st1) => (Panicked msg, st1)
    end
| TError e =>
    (Val (None, Some e),
     {| client := client st; now := now st;
        trace := trace st ++ [EvRoundTrip (Method req) (URL_String (req_URL req))] |})
| TBoth r e =>
    (Val (Some r, Some e),
     {| client := client st; now := now st;
        trace := trace st
                 ++ EvRoundTrip (Method req) (URL_String (req_URL req))
                 :: requestCallbackEvents (client st) (Some r) |})
end.
Proof.
  unfold Do. unfold bind at 1. unfold getClient at 1.
  unfold bind at 1. unfold emit at 1.
  destruct (c_Do (client st) req) as [r|e|r e]; cbn [tr_err].
  - unfold bind at 1. unfold bind at 1. rewrite httpHeadersSniffer_eq.
    unfold bind at 1. cbn [client].
    destruct (httpResponseBodySniffer r _) as [[[r' str]|msg] st1]; [|done].
    unfold bind, emit, ret, requestCallbackEvents, responseLog. cbn [fst snd].
    destruct (RequestCallback (callbacks (client st))) as [call|]; [|done].
    destruct (call _ _); cbn; by rewrite <- !app_assoc.
  - unfold bind, ret. by destruct (RequestCallback (callbacks (client st))).
  - unfold bind, emit, ret, requestCallbackEvents.
    destruct (RequestCallback (callbacks (client st))) as [call|];
      [by destruct (call _ _); cbn; rewrite <- !app_assoc|done].
Qed.

(** X11: whatever the transport returns, a call of [Do] makes exactly one
    round trip (it does not retry), returns the error of the transport as
    it is, and leaves the client and the clock as they were. *)
Theorem Do_one_round_trip (req : Request) (st : State) o st' :
Do req st = (o, st') ->
count isRoundTrip (added st st') = 1%nat /\
(exists response, o = Val (response, tr_err (c_Do (client st) req))) /\
client st' = client st /\ now st' = now st.
Proof.
  intros HDo. apply Do_inv in HDo as (response & l & -> & Hadv & Hq & _).
  rewrite (advances_added _ _ _ Hadv). destruct Hadv as (Hc & Hn & _).
  split; [|by eauto].
  change (?e :: l ++ ?t) with ([e] ++ l ++ t).
  rewrite !count_app, (count_quiet isRoundTrip l); [|by intros []|done].
  by rewrite count_requestCallbackEvents; [|by intros []|].
Qed.

(** X12: the response that [Do] returns has the status code, the protocol,
    the headers and the content length of the response of the transport;
    outside debug mode it is that response, body included. *)
Theorem Do_returns_transport_response (req : Request) (st : State) o st'
        (r : Response) :
Do req st = (o, st') ->
tr_response (c_Do (client st) req) = Some r ->
exists r', o = Val (Some r', tr_err (c_Do (client st) req)) /\
           sameButBody r r' /\
           (debugMode (client st) = false -> r' = r).
Proof.
  rewrite Do_eq. intros HDo Hr.
  destruct (c_Do (client st) req) as [r0|e|r0 e]; cbn in Hr; simplify_eq.
  - destruct (httpResponseBodySniffer r _) as [o1 st1] eqn:Hs.
    apply httpResponseBodySniffer_advances in Hs
      as (r' & str & l & -> & _ & _ & Hsame & Hnd).
    injection HDo as <- _. exists r'. split; [done|]. split; [done|].
    intros Hdbg. by destruct (Hnd Hdbg).
  - exists r. by repeat split.
Qed.

Lemma redacted_requestCallbackEvents (c : Client) (response : option Response) :
Forall (fun e => redacted e = true) (requestCallbackEvents c response).
Proof.
  unfold requestCallbackEvents.
  destruct (RequestCallback (callbacks c)) as [call|]; [|constructor].
  destruct response as [r|]; [|constructor].
  destruct (call _ _); by repeat constructor.
Qed.

(** X13: outside debug mode a call of [Do] reads and closes nothing, and
    every log entry it writes has the placeholder in place of the headers
    and of the body. *)
Theorem Do_not_debug (req : Request) (st : State) o st' :
debugMode (client st) = false ->
Do req st = (o, st') ->
count isClose (added st st') = 0%nat /\
Forall (fun e => redacted e = true) (added st st').
Proof.
  intros Hdbg HDo. split; [by eapply Do_no_close|].
  rewrite Do_eq in HDo.
  destruct (c_Do (client st) req) as [r|e|r e].
  - rewrite httpResponseBodySniffer_eq in HDo. cbn [client] in HDo.
    rewrite Hdbg in HDo. cbn [negb] in HDo. injection HDo as _ <-.
    erewrite added_app; [|cbn [trace]; by rewrite <- app_assoc].
    repeat constructor. apply redacted_requestCallbackEvents.
  - injection HDo as _ <-. erewrite added_app; [|done]. by repeat constructor.
  - injection HDo as _ <-. erewrite added_app; [|done].
    constructor; [done|]. apply redacted_requestCallbackEvents.
Qed.


(** *** The decode pipeline *)

(** X15: after [Do], [DoDecoder] makes at most one decode attempt: one
    exactly when [Do] returned a response without an error, its status is
    not 204, the API-level check finds no error and a destination is given;
    the attempt is a copy for a writer and a JSON decode for a value. *)
Theorem DoDecoder_attempts (req : Request) (v : option Dest) (st : State)
        p st1 o st' :
Do req st = (Val p, st1) ->
DoDecoder req v st = (o, st') ->
added st1 st' = attempts p v /\
List.filter isDecodeAttempt (added st st') = attempts p v.
Proof.
  intros HDo Hdec.
  assert (H1 : trace st' = trace st1 ++ attempts p v).
  { revert Hdec. unfold DoDecoder, bind. rewrite HDo. unfold attempts, passesCheck.
    destruct p as [[res|] [err|]]; unfold ret, panic;
      try (intros [= _ <-]; cbn; by rewrite ?app_nil_r).
    destruct (StatusCode res =? http_StatusNoContent); cbn [negb andb];
      [intros [= _ <-]; destruct v; cbn; by rewrite ?app_nil_r|].
    destruct (checkErrorInResponse res) as [res2 [e|]]; cbn [snd];
      [intros [= _ <-]; destruct v; cbn; by rewrite ?app_nil_r|].
    destruct v as [[w|j]|]; [| |intros [= _ <-]; cbn; by rewrite ?app_nil_r];
      unfold emit; cbn; destruct (res_Body res2) as [b|]; try by intros [= _ <-].
    - destruct (io_Copy w b) as [[w' b'] err]. by intros [= _ <-].
    - destruct (json_Decode b j) as [[b' j'] err]. by intros [= _ <-]. }
  split; [by apply added_app|].
  pose proof (Do_no_decode _ _ _ _ HDo) as Hnone.
  apply Do_inv in HDo as (response & l & _ & Hadv & _).
  rewrite (advances_added _ _ _ Hadv) in Hnone.
  erewrite added_app; [|rewrite H1; destruct Hadv as (_ & _ & ->); by rewrite <- app_assoc].
  rewrite List.filter_app.
  assert (Hf : List.filter isDecodeAttempt
                 (EvRoundTrip (Method req) (URL_String (req_URL req))
                    :: l ++ requestCallbackEvents (client st) response) = []).
  { unfold count in Hnone. by apply length_zero_iff_nil. }
  rewrite Hf. cbn [app]. unfold attempts.
  destruct p as [[res|] [err|]]; try done.
  destruct v as [[w|j]|]; try done; by destruct (passesCheck res).
Qed.

(** X16: when the transport returns an error, also together with a
    response, [DoDecoder] returns that error and no response, makes no
    decode attempt and leaves the destination as it was. *)
Theorem DoDecoder_transport_error (req : Request) (v : option Dest) (st : State)
        (e : Error) :
tr_err (c_Do (client st) req) = Some e ->
exists st', DoDecoder req v st = (Val (None, Some e, v), st') /\
            count isDecodeAttempt (added st st') = 0%nat.
Proof.
  intros Herr. destruct (Do req st) as [o st'] eqn:HDo.
  pose proof (Do_no_decode _ _ _ _ HDo) as Hnone.
  pose proof HDo as Hinv. apply Do_inv in Hinv as (response & l & -> & _).
  exists st'. split; [|done].
  unfold DoDecoder, bind. rewrite HDo, Herr. by destruct response.
Qed.

(** X17: outside debug mode, when [DoDecoder] returns a response and no
    error, [RequestDecoder] returns no error and closes the body of that
    response once, after [DoDecoder] is done with it; nothing else is
    closed. *)
Theorem RequestDecoder_success_closes_once
        (method path : string) (body : option ReadCloser) (v : option Dest)
        (st : State) request st1 (res : Response) (b : ReadCloser) v' st2 :
NewRequest method path body st = (Val (Ok request), st1) ->
debugMode (client st1) = false ->
DoDecoder request v st1 = (Val (Some res, None, v'), st2) ->
res_Body res = Some b ->
exists st3,
  RequestDecoder method path body v st = (Val (None, v'), st3) /\
  added st1 st3 = added st1 st2 ++ [EvClose b] /\
  count isClose (added st1 st3) = 1%nat.
Proof.
  intros Hnew Hdbg Hdec Hb.
  eexists. split; [by eapply RequestDecoder_success_closes|].
  pose proof Hdec as Hinv.
  apply DoDecoder_inv in Hinv as (p & s & l & HDo & Hadv & Hl).
  pose proof (Do_no_close _ _ _ _ Hdbg HDo) as Hc.
  pose proof HDo as HDo'. apply Do_inv in HDo' as (? & l0 & _ & Hadv0 & _).
  pose proof (advances_trans _ _ _ _ _ Hadv0 Hadv) as Hadv2.
  rewrite (advances_added _ _ _ Hadv0) in Hc.
  assert (H3 : added st1 {| client := client st2; now := now st2;
                            trace := trace st2 ++ [EvClose b] |}
               = added st1 st2 ++ [EvClose b]).
  { rewrite (advances_added _ _ _ Hadv2). apply added_app. cbn [trace].
    destruct Hadv2 as (_ & _ & ->). by rewrite <- !app_assoc. }
  split; [done|]. rewrite H3, (advances_added _ _ _ Hadv2), !count_app, Hc.
  rewrite (count_none isClose l); [done|].
  eapply Forall_impl; [exact Hl|]. by intros [].
Qed.

(** X18: in debug mode, when sniffing the body of the response fails, [Do]
    hands on a response with a nil body, and [RequestDecoder] panics on it:
    with a destination when the decode reads the body, without one when the
    deferred [Close] is set up. This holds for a response with status 204,
    and for one that passes the API-level check with its body still nil. *)
Theorem RequestDecoder_panics_after_failed_sniff
        (method path : string) (body : option ReadCloser) (v : option Dest)
        (st : State) request st1 (rs : Response) (b : ReadCloser) :
NewRequest method path body st = (Val (Ok request), st1) ->
debugMode (client st1) = true ->
c_Do (client st1) request = TResponse rs ->
res_Body rs = Some b -> ContentLength rs <> 0 -> sniffFails b ->
(StatusCode rs = http_StatusNoContent \/
 exists res2, checkErrorInResponse (setResBody rs None) = (res2, None) /\
              res_Body res2 = None) ->
exists msg st', RequestDecoder method path body v st = (Panicked msg, st').
Proof.
  intros Hnew Hdbg Htr Hb Hlen Hf Hcheck.
  assert (HDo : exists s, Do request st1 = (Val (Some (setResBody rs None), None), s)).
  { rewrite Do_eq, Htr, httpResponseBodySniffer_eq. cbn [client].
    rewrite Hdbg, Hb. cbn [negb]. apply Z.eqb_neq in Hlen. rewrite Hlen.
    destruct Hf as [Hr|Hc].
    - destruct (snd (ReadAll b)); [by eexists|done].
    - destruct (snd (ReadAll b)); [by eexists|].
      destruct (closeError b); [by eexists|done]. }
  destruct HDo as (s & HDo).
  unfold RequestDecoder. unfold bind at 1. rewrite Hnew.
  unfold bind at 1. unfold DoDecoder. unfold bind at 1. rewrite HDo.
  cbn [StatusCode setResBody].
  destruct Hcheck as [H204 | (res2 & Hchk & Hnil)].
  - apply Z.eqb_eq in H204. rewrite H204. unfold ret, panic. cbn. by eexists _, _.
  - destruct (StatusCode rs =? http_StatusNoContent).
    + unfold ret, panic. cbn. by eexists _, _.
    + change {| StatusCode := StatusCode rs; Proto := Proto rs;
                res_Header := res_Header rs; res_Body := None;
                ContentLength := ContentLength rs |} with (setResBody rs None).
      rewrite Hchk.
      destruct v as [[w|j]|]; unfold bind, emit, ret, panic; rewrite ?Hnil; cbn;
        rewrite ?Hnil; by eexists _, _.
Qed.

End Further.

(** *** The further properties on the sample environment *)

Module FurtherOnSample.

Import Sample Inputs.

Lemma NewRequest_keeps_valid_token_witness :
let st := signedIn false in
let run := newRules st in
count isGenerateToken (added st (snd run)) = 0%nat /\
count isTokenExpiredCallback (added st (snd run)) = 0%nat /\
client (snd run) = client st /\ now (snd run) = now st /\
(forall req, fst run = Val (Ok req) ->
             carries (req_Header req) (headers (client st)) "Authorization"
                     (token (auth (client st)))).
Proof.
  intros st run.
  apply (NewRequest_keeps_valid_token "GET" "AlertRules" None st (fst run) (snd run));
    reflexivity.
Defined.

Lemma NewRequest_uses_regenerated_token_witness :
let run := newRules expiredToken in
snd (GenerateToken (client expiredToken)) = None /\
client (snd run) = fst (GenerateToken (client expiredToken)) /\
carries (req_Header (built run)) (headers (fst (GenerateToken (client expiredToken))))
        "Authorization" (token (auth (fst (GenerateToken (client expiredToken))))).
Proof.
  intros run.
  apply (NewRequest_uses_regenerated_token "GET" "AlertRules" None expiredToken
                                           (built run) (snd run));
    reflexivity.
Defined.

Lemma NewRequest_regeneration_failure_witness :
NewRequest (P := Offline.pkg) "GET" "AlertRules" None expiredToken
= (Val (Err "401 Unauthorized"), regenerated (P := Offline.pkg) expiredToken) /\
added expiredToken (regenerated (P := Offline.pkg) expiredToken)
= tokenExpiredEvents (client expiredToken) (now expiredToken) ++ [EvGenerateToken].
Proof.
  apply (NewRequest_regeneration_failure (P := Offline.pkg)
           "GET" "AlertRules" None expiredToken "401 Unauthorized");
    reflexivity.
Defined.

Lemma NewRequest_regenerates_at_most_once_witness :
let run := newToken userAgentOnly in
(count isGenerateToken (added userAgentOnly (snd run)) <= 1)%nat /\
(count isTokenExpiredCallback (added userAgentOnly (snd run)) <= 1)%nat /\
now (snd run) = now userAgentOnly /\
(count isGenerateToken (added userAgentOnly (snd run)) = 0%nat ->
 client (snd run) = client userAgentOnly) /\
(String.eqb "access/tokens" apiTokens = true ->
 count isGenerateToken (added userAgentOnly (snd run)) = 0%nat).
Proof.
  intros run.
  apply (NewRequest_regenerates_at_most_once
           "POST" "access/tokens" (Some (NopCloser (json "{}"))) userAgentOnly
           (fst run) (snd run)).
  reflexivity.
Defined.

Lemma NewRequest_content_type_without_body_witness :
let run := newRules (signedIn false) in
req_Header (built run) !! "Content-Type"
= globalValue (headers (client (snd run))) "Content-Type".
Proof.
  intros run.
  apply (NewRequest_content_type_without_body "GET" "AlertRules" (signedIn false)
                                              (built run) (snd run)).
  reflexivity.
Defined.

Lemma NewRequest_header_complete_witness :
let run := newRules (signedIn false) in
(forall g0 k v g1,
    headers (client (snd run)) = g0 ++ (k, v) :: g1 ->
    unset g1 k ->
    req_Header (built run) !! textproto.CanonicalMIMEHeaderKey k = Some [v]) /\
(forall i,
    i ∉ computedKeys ->
    Forall (fun kv => textproto.CanonicalMIMEHeaderKey (fst kv) <> i)
           (headers (client (snd run))) ->
    req_Header (built run) !! i = None).
Proof.
  intros run.
  apply (NewRequest_header_complete "GET" "AlertRules" None (signedIn false)
                                    (built run) (snd run)).
  reflexivity.
Defined.

Lemma computed_headers_order_irrelevant_witness :
let st := signedIn false in
setAll ∅ ([("Authorization", "token")] ++ baseHeaders getRules)
= setAll ∅ (baseHeaders getRules ++ [("Authorization", "token")] ++ contentType None).
Proof.
  intros st.
  apply (computed_headers_order_irrelevant "AlertRules" st getRules None
           ("Authorization", "token") st).
  - reflexivity.
  - apply Permutation_app_comm.
Defined.



Lemma Do_one_round_trip_witness :
let st := start (mkSample "token" 100 [] notify unreachable false) 0 in
let run := doRules st in
count isRoundTrip (added st (snd run)) = 1%nat /\
(exists response, fst run = Val (response, tr_err (c_Do (client st) getRules))) /\
client (snd run) = client st /\ now (snd run) = now st.
Proof.
  intros st run.
  apply (Do_one_round_trip getRules st (fst run) (snd run)). reflexivity.
Defined.

Lemma Do_returns_transport_response_witness :
let st := answering (okResponse 404 (json "{}")) true in
let run := doRules st in
exists r', fst run = Val (Some r', tr_err (c_Do (client st) getRules)) /\
           sameButBody (okResponse 404 (json "{}")) r' /\
           (debugMode (client st) = false -> r' = okResponse 404 (json "{}")).
Proof.
  intros st run.
  apply (Do_returns_transport_response getRules st (fst run) (snd run)
                                       (okResponse 404 (json "{}")));
    reflexivity.
Defined.

Lemma Do_not_debug_witness :
let st := answering (okResponse 200 (json "{}")) false in
let run := doRules st in
count isClose (added st (snd run)) = 0%nat /\
Forall (fun e => redacted e = true) (added st (snd run)).
Proof.
  intros st run.
  apply (Do_not_debug getRules st (fst run) (snd run)); reflexivity.
Defined.


Lemma DoDecoder_attempts_witness :
let st := answering (okResponse 200 (json "{}")) false in
let run := doRules st in
let dec := DoDecoder getRules intoWriter st in
added (snd run) (snd dec) = attempts (Some (answered run), None) intoWriter /\
List.filter isDecodeAttempt (added st (snd dec))
= attempts (Some (answered run), None) intoWriter.
Proof.
  intros st run dec.
  apply (DoDecoder_attempts getRules intoWriter st (Some (answered run), None)
                            (snd run) (fst dec) (snd dec));
    reflexivity.
Defined.

Lemma DoDecoder_transport_error_witness :
let st := start (mkSample "token" 100 [] notify unreachable false) 0 in
exists st', DoDecoder getRules intoValue st
            = (Val (None, Some "dial tcp: connection refused", intoValue), st') /\
            count isDecodeAttempt (added st st') = 0%nat.
Proof.
  intros st.
  apply (DoDecoder_transport_error getRules intoValue st "dial tcp: connection refused").
  reflexivity.
Defined.

Lemma RequestDecoder_success_closes_once_witness :
let st := answering (okResponse 200 (json "{}")) false in
let dec := decodeRules intoValue st in
exists st3,
  RequestDecoder "GET" "AlertRules" None intoValue st
  = (Val (None, rulesValue), st3) /\
  added (snd (newRules st)) st3
  = added (snd (newRules st)) (snd dec) ++ [EvClose (Stream [] None None)] /\
  count isClose (added (snd (newRules st)) st3) = 1%nat.
Proof.
  intros st dec.
  apply (RequestDecoder_success_closes_once
           "GET" "AlertRules" None intoValue st (built (newRules st))
           (snd (newRules st))
           (setResBody (okResponse 200 (json "{}")) (Some (Stream [] None None)))
           (Stream [] None None) rulesValue (snd dec));
    reflexivity.
Defined.

Lemma RequestDecoder_panics_after_failed_sniff_witness :
exists msg st',
  RequestDecoder "GET" "AlertRules" None intoValue breaking = (Panicked msg, st').
Proof.
  apply (RequestDecoder_panics_after_failed_sniff
           "GET" "AlertRules" None intoValue breaking (built (newRules breaking))
           (snd (newRules breaking)) brokenResponse broken);
    [reflexivity | reflexivity | reflexivity | reflexivity
     | vm_compute; discriminate | left; vm_compute; discriminate
     | right; eexists; split; reflexivity].
Defined.

End FurtherOnSample.
